(** * Power-law regression on log-scale data: [notebooks/power_laws.py]

    A shallow embedding of the regression and bootstrap pipeline of
    [power_laws.py], and the properties of it that the specification
    states.

    - numpy's float64 is [spec_float] at precision 53 and exponent bound
      1024, with the IEEE operations of the Standard Library;
    - a one-dimensional array is a [list]; a boolean mask is a [list bool];
    - a Python exception is a value of [exn], and a computation that may
      raise returns a [result];
    - scipy and numpy routines the module calls but does not define
      ([linregress], [pearsonr], [spearmanr], the ODR solver, [np.log],
      [np.exp], [np.random.choice]) are the fields of the class
      [Collaborators]: every theorem holds for every implementation of them;
    - numpy's process-wide random generator is a state threaded through
      [bootstrap_power_law_odr]. *)

From Stdlib Require Import ZArith List Bool Lia QArith Qround.
From Stdlib Require String.
From Stdlib Require Import Floats.SpecFloat.
Import ListNotations.

Local Open Scope Z_scope.

(** ** Binary64 *)

Module F64.

Definition prec : Z := 53.
Definition emax : Z := 1024.

Definition float : Type := spec_float.

Definition nan : float := S754_nan.
Definition pinf : float := S754_infinity false.
Definition ninf : float := S754_infinity true.
Definition zero : float := S754_zero false.

Definition add : float -> float -> float := SFadd prec emax.
Definition sub : float -> float -> float := SFsub prec emax.
Definition mul : float -> float -> float := SFmul prec emax.
Definition div : float -> float -> float := SFdiv prec emax.
Definition sqrt : float -> float := SFsqrt prec emax.
Definition ltb : float -> float -> bool := SFltb.
Definition leb : float -> float -> bool := SFleb.
Definition eqb : float -> float -> bool := SFeqb.

(** The float64 nearest to an integer ([np.int64] to [np.float64]). *)
Definition of_Z (z : Z) : float := binary_normalize prec emax z 0 false.

Definition one : float := of_Z 1.

Definition isnan (x : float) : bool :=
  match x with S754_nan => true | _ => false end.

Definition isinf (x : float) : bool :=
  match x with S754_infinity _ => true | _ => false end.

(** [np.isfinite]: neither NaN nor an infinity. *)
Definition isfinite (x : float) : bool :=
  match x with S754_zero _ | S754_finite _ _ _ => true | _ => false end.

(** The rational a float denotes (0 for NaN and the infinities, which
    denote none). *)
Definition to_Q (x : float) : Q :=
  match x with
  | S754_finite s m e =>
      match e with
      | Zneg p => Qmake (cond_Zopp s (Zpos m)) (2 ^ p)
      | _ => inject_Z (cond_Zopp s (Zpos m * 2 ^ e))
      end
  | _ => 0%Q
  end.

End F64.

Abbreviation float := F64.float.

(** ** Python values, exceptions and results *)

(** The exception classes that reach a caller of this module: those Python
    and numpy raise for the operations modelled here, [scipy.odr.OdrError],
    and any other class a collaborator may raise. *)
Inductive exn : Type :=
| ValueError
| IndexError
| OverflowError
| OdrError
| OtherError (cls : String.string).

Inductive result (A : Type) : Type :=
| Ok (a : A)
| Raise (e : exn).

Arguments Ok {A} a.
Arguments Raise {A} e.

Definition bind {A B : Type} (c : result A) (k : A -> result B) : result B :=
  match c with
  | Ok a => k a
  | Raise e => Raise e
  end.

Declare Scope py_scope.
Delimit Scope py_scope with py.

Notation "x <- c ;; k" := (bind c (fun x => k))
  (at level 100, c at next level, right associativity) : py_scope.
Notation "' p <- c ;; k" := (bind c (fun x => match x with p => k end))
  (at level 100, p pattern, c at next level, right associativity) : py_scope.

Local Open Scope py_scope.

Definition returns {A : Type} (c : result A) : bool :=
  match c with Ok _ => true | Raise _ => false end.

(** A Python number that is either an [int] or a float64: the exponent
    [fit_power_law_odr] returns is the literal [1] under [unit_exp] and a
    float otherwise. *)
Inductive number : Type :=
| PyInt (z : Z)
| PyFloat (f : float).

(** [np.array] on a list of numbers with a float among them: integers are
    converted. *)
Definition to_float64 (n : number) : float :=
  match n with
  | PyInt z => F64.of_Z z
  | PyFloat f => f
  end.

(** [int(x)] for a float: truncation toward zero; [ValueError] on NaN,
    [OverflowError] on an infinity. *)
Definition py_int (x : float) : result Z :=
  match x with
  | S754_nan => Raise ValueError
  | S754_infinity _ => Raise OverflowError
  | S754_zero _ => Ok 0
  | S754_finite s m e => Ok (cond_Zopp s (Z.shiftl (Zpos m) e))
  end.

(** [p[i]] for a constant index [i >= 0]. *)
Definition getitem {A : Type} (l : list A) (i : nat) : result A :=
  match nth_error l i with
  | Some a => Ok a
  | None => Raise IndexError
  end.

(** [a, b = l]: exactly two elements, else [ValueError]. *)
Definition unpack2 {A : Type} (l : list A) : result (A * A) :=
  match l with
  | [a; b] => Ok (a, b)
  | _ => Raise ValueError
  end.

(** ** numpy on one-dimensional arrays *)

Definition ndarray : Type := list float.

Definition np_isnan (a : ndarray) : list bool := map F64.isnan a.
Definition np_isfinite (a : ndarray) : list bool := map F64.isfinite a.
Definition np_invert (m : list bool) : list bool := map negb m.

Fixpoint zip_with {A B C : Type} (f : A -> B -> C) (a : list A) (b : list B)
  : list C :=
  match a, b with
  | x :: a', y :: b' => f x y :: zip_with f a' b'
  | _, _ => []
  end.

(** [a & b] on boolean arrays: elementwise on equal shapes, a length-one
    operand is broadcast, any other pair of shapes is a [ValueError]. *)
Definition np_and (a b : list bool) : result (list bool) :=
  if Nat.eqb (length a) (length b) then Ok (zip_with andb a b)
  else match a, b with
       | [x], _ => Ok (map (andb x) b)
       | _, [y] => Ok (map (fun x => andb x y) a)
       | _, _ => Raise ValueError
       end.

(** The entries of [a] at the positions where [mask] is true. *)
Fixpoint select {A : Type} (a : list A) (mask : list bool) : list A :=
  match a, mask with
  | x :: a', b :: mask' => if b then x :: select a' mask' else select a' mask'
  | _, _ => []
  end.

(** [a[mask]]: the mask must have the length of the array; only an empty
    mask is taken for an empty list of positions and selects nothing from
    an array of any length. *)
Definition np_bool_index {A : Type} (a : list A) (mask : list bool)
  : result (list A) :=
  if Nat.eqb (length a) (length mask) then Ok (select a mask)
  else match mask with
       | [] => Ok []
       | _ :: _ => Raise IndexError
       end.

(** [np.sum(mask)]: the number of true entries. *)
Definition np_sum (mask : list bool) : Z :=
  Z.of_nat (length (filter (fun b => b) mask)).

(** [a[idxs]] for an array of non-negative indices: [IndexError] when one is
    out of bounds. *)
Fixpoint np_take {A : Type} (a : list A) (idxs : list nat) : result (list A) :=
  match idxs with
  | [] => Ok []
  | i :: idxs' =>
      x <- getitem a i ;;
      rest <- np_take a idxs' ;;
      Ok (x :: rest)
  end.

(** ** Collaborators

    What the module imports from scipy and numpy and calls without
    defining.  A routine that may raise returns a [result]. *)

Record LinregressResult : Type := mkLinregress {
  lr_slope : float;
  lr_intercept : float;
  lr_rvalue : float;
  lr_pvalue : float;
  lr_stderr : float
}.

(** The [Output] of an ODR run: the estimated parameters, the solver's
    stopping code [info] (1 to 3: converged; 4: iteration limit reached;
    5 and above: questionable results or a fatal error) and the final sum
    of squared errors. *)
Record OdrOutput : Type := mkOdrOutput {
  beta : list float;
  info : Z;
  sum_square : float
}.

(** A model function handed to [scipy.odr.Model]: parameters, then the
    array of x-values. *)
Definition model_fn : Type := list float -> ndarray -> result ndarray.

Class Collaborators : Type := {
  (** state of numpy's global random generator *)
  rng : Type;
  np_log : float -> float;
  np_exp : float -> float;
  (** [scipy.stats]: statistic and p-value *)
  spearmanr : ndarray -> ndarray -> result (float * float);
  pearsonr : ndarray -> ndarray -> result (float * float);
  linregress : ndarray -> ndarray -> result LinregressResult;
  (** [ODR(Data(x, y), Model(f), beta0=beta0).run()] *)
  odr_run : model_fn -> ndarray -> ndarray -> list float -> result OdrOutput;
  (** [np.random.choice(a, size)], with its defaults [replace=True] and
      uniform [p]: [size] draws from [range(a)]; the generator advances,
      also when the call raises *)
  np_random_choice : Z -> Z -> rng -> result (list nat) * rng
}.

(** ** The module *)

(** [_lin_f]: [(p[0] * x) + p[1]] *)
Definition _lin_f : model_fn := fun p x =>
  p0 <- getitem p 0 ;;
  p1 <- getitem p 1 ;;
  Ok (map (fun xi => F64.add (F64.mul p0 xi) p1) x).

(** [_slope_one]: [x + p[0]] *)
Definition _slope_one : model_fn := fun p x =>
  p0 <- getitem p 0 ;;
  Ok (map (fun xi => F64.add xi p0) x).

(** [~np.isnan(log_xs) & ~np.isnan(log_ys)], the first statement of
    [log_spearmanr], [log_pearsonr], [log_linregress], [fit_power_law] and
    [fit_power_law_odr]. *)
Definition nan_mask (log_xs log_ys : ndarray) : result (list bool) :=
  np_and (np_invert (np_isnan log_xs)) (np_invert (np_isnan log_ys)).

(** [np.isfinite(xs) & np.isfinite(ys)] *)
Definition finite_mask (xs ys : ndarray) : result (list bool) :=
  np_and (np_isfinite xs) (np_isfinite ys).

Section PowerLaws.

Context {C : Collaborators}.

Definition log_spearmanr (log_xs log_ys : ndarray) : result (float * float) :=
  mask <- nan_mask log_xs log_ys ;;
  xs_ <- np_bool_index log_xs mask ;;
  ys_ <- np_bool_index log_ys mask ;;
  spearmanr xs_ ys_.

Definition log_pearsonr (log_xs log_ys : ndarray) : result (float * float) :=
  mask <- nan_mask log_xs log_ys ;;
  xs_ <- np_bool_index log_xs mask ;;
  ys_ <- np_bool_index log_ys mask ;;
  pearsonr xs_ ys_.

Definition log_linregress (log_xs log_ys : ndarray) : result LinregressResult :=
  mask <- nan_mask log_xs log_ys ;;
  xs_ <- np_bool_index log_xs mask ;;
  ys_ <- np_bool_index log_ys mask ;;
  linregress xs_ ys_.

(** Returns exponent, prefactor, r, p-value and the standard error of the
    exponent. *)
Definition fit_power_law (log_xs log_ys : ndarray)
  : result (float * float * float * float * float) :=
  mask <- nan_mask log_xs log_ys ;;
  xs_ <- np_bool_index log_xs mask ;;
  ys_ <- np_bool_index log_ys mask ;;
  lr <- linregress xs_ ys_ ;;
  let prefactor := np_exp (lr_intercept lr) in
  let exponent := lr_slope lr in
  Ok (exponent, prefactor, lr_rvalue lr, lr_pvalue lr, lr_stderr lr).

(** The mask of [fit_power_law_odr]: the NaN mask, and-ed in place with
    the finiteness mask. *)
Definition odr_mask (log_xs log_ys : ndarray) : result (list bool) :=
  mask <- nan_mask log_xs log_ys ;;
  fin <- finite_mask log_xs log_ys ;;
  np_and mask fin.

(** Returns exponent, prefactor and r. *)
Definition fit_power_law_odr (log_xs log_ys : ndarray) (unit_exp : bool)
  : result (number * float * float) :=
  mask <- odr_mask log_xs log_ys ;;
  xs_ <- np_bool_index log_xs mask ;;
  ys_ <- np_bool_index log_ys mask ;;
  linreg <- linregress xs_ ys_ ;;
  let f := if unit_exp then _slope_one else _lin_f in
  let beta0 :=
    if unit_exp then [lr_intercept linreg]
    else [lr_slope linreg; lr_intercept linreg] in
  out <- odr_run f xs_ ys_ beta0 ;;
  '(slope, intercept) <-
     (if unit_exp
      then b0 <- getitem (beta out) 0 ;; Ok (PyInt 1, b0)
      else '(b0, b1) <- unpack2 (beta out) ;; Ok (PyFloat b0, b1)) ;;
  '(r, _) <- pearsonr xs_ ys_ ;;
  let prefactor := np_exp intercept in
  let exponent := slope in
  Ok (exponent, prefactor, r).

(** One pass of the body of the [for] loop of [bootstrap_power_law_odr]:
    the draw, the gathering, the logarithms and the fit. *)
Definition bootstrap_round (masked_xs masked_ys : ndarray) (tot subset_size : Z)
  (g : rng) : result (number * float * float) * rng :=
  match np_random_choice tot subset_size g with
  | (Raise e, g') => (Raise e, g')
  | (Ok idxs, g') =>
      (xs_sub <- np_take masked_xs idxs ;;
       ys_sub <- np_take masked_ys idxs ;;
       fit_power_law_odr (map np_log xs_sub) (map np_log ys_sub) false,
       g')
  end.

(** The [for _ in range(rounds)] loop, with the three lists it appends to. *)
Fixpoint bootstrap_loop (n : nat) (masked_xs masked_ys : ndarray)
  (tot subset_size : Z) (exponents : list number) (prefactors rs : list float)
  (g : rng) : result (list number * list float * list float) * rng :=
  match n with
  | O => (Ok (exponents, prefactors, rs), g)
  | S n' =>
      match bootstrap_round masked_xs masked_ys tot subset_size g with
      | (Raise e, g') => (Raise e, g')
      | (Ok (exp, pre, r), g') =>
          bootstrap_loop n' masked_xs masked_ys tot subset_size
            (exponents ++ [exp]) (prefactors ++ [pre]) (rs ++ [r]) g'
      end
  end.

(** [subset_size = int(fraction * tot)] *)
Definition subset_size_of (fraction : float) (tot : Z) : result Z :=
  py_int (F64.mul fraction (F64.of_Z tot)).

(** Returns three arrays: exponents, prefactors and Pearson r values. *)
Definition bootstrap_power_law_odr (xs ys : ndarray) (fraction : float)
  (rounds : Z) (g : rng) : result (ndarray * ndarray * ndarray) * rng :=
  match
    (mask <- finite_mask xs ys ;;
     masked_xs <- np_bool_index xs mask ;;
     masked_ys <- np_bool_index ys mask ;;
     let tot := np_sum mask in
     subset_size <- subset_size_of fraction tot ;;
     Ok (masked_xs, masked_ys, tot, subset_size))
  with
  | Raise e => (Raise e, g)
  | Ok (masked_xs, masked_ys, tot, subset_size) =>
      match bootstrap_loop (Z.to_nat rounds) masked_xs masked_ys
              tot subset_size [] [] [] g with
      | (Raise e, g') => (Raise e, g')
      | (Ok (exponents, prefactors, rs), g') =>
          (Ok (map to_float64 exponents, prefactors, rs), g')
      end
  end.

End PowerLaws.

(** The defaults of [bootstrap_power_law_odr]: [fraction=0.9] (the float64
    nearest to 9/10) and [rounds=1000]. *)
Definition default_fraction : float :=
  S754_finite false 8106479329266893 (-53).
Definition default_rounds : Z := 1000.

(** ** A reference implementation of the collaborators

    scipy and numpy are not part of the module.  To run the embedding on
    concrete inputs the collaborators are instantiated here with textbook
    formulas in binary64: sums, means and Pearson's r as they are defined,
    Spearman's rho as Pearson's r of the ranks, logarithm and exponential
    by range reduction and a power series, an ODR solver that evaluates
    the model at the starting parameters and returns them without
    iterating, and a linear congruential generator.  p-values and standard
    errors are not computed (NaN).  The theorems below do not depend on
    this instance; examples do. *)

Module Reference.

Definition ldexp (x : float) (k : Z) : float := SFldexp F64.prec F64.emax x k.

Definition fsum (l : ndarray) : float := fold_left F64.add l F64.zero.

Definition mean (l : ndarray) : float :=
  F64.div (fsum l) (F64.of_Z (Z.of_nat (length l))).

Definition centered (l : ndarray) : ndarray :=
  let m := mean l in map (fun x => F64.sub x m) l.

Definition dot (a b : ndarray) : float := fsum (zip_with F64.mul a b).

Definition clamp (r : float) : float :=
  if F64.ltb F64.one r then F64.one
  else if F64.ltb r (SFopp F64.one) then SFopp F64.one
  else r.

Definition pearson_r (xs ys : ndarray) : float :=
  let dx := centered xs in
  let dy := centered ys in
  clamp (F64.div (dot dx dy) (F64.sqrt (F64.mul (dot dx dx) (dot dy dy)))).

(** Two samples of one length, of at least two points each; anything else
    is refused, as scipy does. *)
Definition pearsonr (xs ys : ndarray) : result (float * float) :=
  if Nat.eqb (length xs) (length ys) && Nat.leb 2 (length xs)
  then Ok (pearson_r xs ys, F64.nan)
  else Raise ValueError.

(** Average rank of [x] in [l]: ties share the mean of their positions. *)
Definition rank (l : ndarray) (x : float) : float :=
  let below := Z.of_nat (length (filter (fun y => F64.ltb y x) l)) in
  let equal := Z.of_nat (length (filter (fun y => F64.eqb y x) l)) in
  F64.div (F64.of_Z (2 * below + equal + 1)) (F64.of_Z 2).

(** Pearson's r of the ranks; on fewer than two points there is no
    correlation to compute and the statistic is NaN. *)
Definition spearmanr (xs ys : ndarray) : result (float * float) :=
  if Nat.leb 2 (length xs) || Nat.leb 2 (length ys)
  then pearsonr (map (rank xs) xs) (map (rank ys) ys)
  else Ok (F64.nan, F64.nan).

(** Ordinary least squares; an empty input is refused, as scipy does. *)
Definition linregress (xs ys : ndarray) : result LinregressResult :=
  match xs, ys with
  | [], _ | _, [] => Raise ValueError
  | _, _ =>
      let dx := centered xs in
      let dy := centered ys in
      let r_den := F64.sqrt (F64.mul (dot dx dx) (dot dy dy)) in
      let r :=
        if F64.eqb r_den F64.zero then F64.zero
        else clamp (F64.div (dot dx dy) r_den) in
      let slope := F64.div (dot dx dy) (dot dx dx) in
      let intercept := F64.sub (mean ys) (F64.mul slope (mean xs)) in
      Ok (mkLinregress slope intercept r F64.nan F64.nan)
  end.

(** A solver that does not iterate: it evaluates the model at [beta0] and
    reports convergence ([info = 1]) when the residuals vanish there and
    the iteration limit ([info = 4]) otherwise. *)
Definition odr_run (f : model_fn) (x y : ndarray) (beta0 : list float)
  : result OdrOutput :=
  match f beta0 x with
  | Raise _ => Raise OdrError
  | Ok fx =>
      if Nat.eqb (length fx) (length y) then
        let res := zip_with F64.sub y fx in
        let ssq := dot res res in
        Ok (mkOdrOutput beta0 (if F64.eqb ssq F64.zero then 1 else 4) ssq)
      else Raise OdrError
  end.

(** The float64 nearest to ln 2. *)
Definition ln2 : float := S754_finite false 6243314768165359 (-53).

(** [c0 + y (c1 + y (c2 + ...))] *)
Fixpoint horner (coeffs : list float) (y : float) : float :=
  match coeffs with
  | [] => F64.zero
  | c :: cs => F64.add c (F64.mul y (horner cs y))
  end.

Definition odd_reciprocals : list float :=
  map (fun k => F64.div F64.one (F64.of_Z (2 * Z.of_nat k + 1))) (seq 0 14).

(** ln of a positive finite float [m * 2^e]: with [t = x / 2^k] in [1, 2)
    and [z = (t - 1) / (t + 1)], ln x = k ln 2 + 2 z (1 + z^2/3 + z^4/5 + ...). *)
Definition np_log (x : float) : float :=
  match x with
  | S754_nan => F64.nan
  | S754_zero _ => F64.ninf
  | S754_infinity s => if s then F64.nan else F64.pinf
  | S754_finite true _ _ => F64.nan
  | S754_finite false m e =>
      let k := e + Zpos (digits2_pos m) - 1 in
      let t := ldexp x (- k) in
      let z := F64.div (F64.sub t F64.one) (F64.add t F64.one) in
      let series := horner odd_reciprocals (F64.mul z z) in
      F64.add (F64.mul (F64.of_Z k) ln2)
              (F64.mul (F64.of_Z 2) (F64.mul z series))
  end.

Fixpoint factorial (n : nat) : Z :=
  match n with
  | O => 1
  | S n' => Z.of_nat n * factorial n'
  end.

Definition inverse_factorials : list float :=
  map (fun k => F64.div F64.one (F64.of_Z (factorial k))) (seq 0 20).

(** exp x = 2^k exp r with [k] the integer part of [x / ln 2] and
    [r = x - k ln 2]. *)
Definition np_exp (x : float) : float :=
  match x with
  | S754_nan => F64.nan
  | S754_zero _ => F64.one
  | S754_infinity s => if s then F64.zero else F64.pinf
  | S754_finite _ _ _ =>
      match py_int (F64.div x ln2) with
      | Ok k =>
          let r := F64.sub x (F64.mul (F64.of_Z k) ln2) in
          ldexp (horner inverse_factorials r) k
      | Raise _ => F64.nan
      end
  end.

(** The generator of Numerical Recipes, modulo 2^32. *)
Definition lcg_next (g : Z) : Z := (1664525 * g + 1013904223) mod 2 ^ 32.

Fixpoint lcg_draws (n : nat) (a : Z) (g : Z) : list nat * Z :=
  match n with
  | O => ([], g)
  | S n' =>
      let g1 := lcg_next g in
      let '(rest, g2) := lcg_draws n' a g1 in
      (Z.to_nat ((g1 / 2 ^ 16) mod a) :: rest, g2)
  end.

(** [size] draws from [range(a)]; an empty population or a negative size
    is refused. *)
Definition np_random_choice (a size : Z) (g : Z) : result (list nat) * Z :=
  if (a <=? 0) || (size <? 0) then (Raise ValueError, g)
  else let '(idxs, g') := lcg_draws (Z.to_nat size) a g in (Ok idxs, g').

#[export] Instance collaborators : Collaborators := {
  rng := Z;
  np_log := Reference.np_log;
  np_exp := Reference.np_exp;
  spearmanr := Reference.spearmanr;
  pearsonr := Reference.pearsonr;
  linregress := Reference.linregress;
  odr_run := Reference.odr_run;
  np_random_choice := Reference.np_random_choice
}.

End Reference.

(** ** [notebooks/utils.py] *)

(** A pandas [Series] of floats is the list of its values; a missing value
    is NaN. *)
Definition series : Type := list float.

(** [bool(x)] for a float: every value but the two zeros is true. *)
Definition truthy (x : float) : bool :=
  match x with S754_zero _ => false | _ => true end.

(** [a.notnull()] *)
Definition series_notnull (a : series) : list bool :=
  map (fun x => negb (F64.isnan x)) a.

(** [a.any()], with pandas' default [skipna=True]: whether a value that is
    not missing is true. *)
Definition series_any (a : series) : bool :=
  existsb truthy (select a (series_notnull a)).

Section Utils.

(** [scipy.stats.gmean] *)
Variable gmean : ndarray -> result float.

(** Geometric mean of a series that handles NaNs. *)
Definition nan_gmean (a : series) : result float :=
  if negb (series_any a) then Ok F64.nan
  else
    let my_a := select a (series_notnull a) in
    gmean (select a (series_notnull a)).

End Utils.

Module ReferenceUtils.

(** The geometric mean as the exponential of the mean logarithm. *)
Definition gmean (a : ndarray) : result float :=
  Ok (Reference.np_exp (Reference.mean (map Reference.np_log a))).

End ReferenceUtils.

(** Whether a value is neither missing nor zero. *)
Definition counts (x : float) : bool := negb (F64.isnan x) && truthy x.

(** ** Vocabulary of the specification *)

(** A row is valid for the specification when both values are finite. *)
Definition both_finite (x y : float) : bool :=
  F64.isfinite x && F64.isfinite y.

Definition both_not_nan (x y : float) : bool :=
  negb (F64.isnan x) && negb (F64.isnan y).

(** The rows [(x, y)] of a paired sample that satisfy [p], in order. *)
Definition rows_where (p : float -> float -> bool) (xs ys : ndarray)
  : list (float * float) :=
  filter (fun r => p (fst r) (snd r)) (combine xs ys).

Definition xs_where (p : float -> float -> bool) (xs ys : ndarray) : ndarray :=
  map fst (rows_where p xs ys).

Definition ys_where (p : float -> float -> bool) (xs ys : ndarray) : ndarray :=
  map snd (rows_where p xs ys).

(** The number of valid rows. *)
Definition count_valid (xs ys : ndarray) : nat :=
  length (rows_where both_finite xs ys).

(** The solver converged: [info] is 1, 2 or 3. *)
Definition converged (out : OdrOutput) : bool :=
  (1 <=? info out) && (info out <=? 3).

(** [n] rounds of resampling with subset size [k], from generator state [g]
    to [g']: in each, [k] indices are drawn from [range(tot)], the values
    at them are gathered, their logarithms are fitted without the
    unit-exponent constraint, and the fit is recorded. *)
Inductive rounds_run {C : Collaborators} (masked_xs masked_ys : ndarray)
  (tot k : Z) : nat -> rng -> list (number * float * float) -> rng -> Prop :=
| rounds_done : forall g, rounds_run masked_xs masked_ys tot k O g [] g
| rounds_step : forall n g idxs g1 xs_sub ys_sub fit fits g2,
    np_random_choice tot k g = (Ok idxs, g1) ->
    np_take masked_xs idxs = Ok xs_sub ->
    np_take masked_ys idxs = Ok ys_sub ->
    fit_power_law_odr (map np_log xs_sub) (map np_log ys_sub) false = Ok fit ->
    rounds_run masked_xs masked_ys tot k n g1 fits g2 ->
    rounds_run masked_xs masked_ys tot k (S n) g (fit :: fits) g2.

Definition fit_exponent (t : number * float * float) : number := fst (fst t).
Definition fit_prefactor (t : number * float * float) : float := snd (fst t).
Definition fit_r (t : number * float * float) : float := snd t.




(** The collaborators [C] with the stopping code of every solver output
    replaced by [h] of it. *)
Definition with_info (C : Collaborators) (h : OdrOutput -> Z) : Collaborators :=
  {| rng := @rng C;
     np_log := @np_log C;
     np_exp := @np_exp C;
     spearmanr := @spearmanr C;
     pearsonr := @pearsonr C;
     linregress := @linregress C;
     odr_run := fun f x y beta0 =>
       out <- @odr_run C f x y beta0 ;;
       Ok (mkOdrOutput (beta out) (h out) (sum_square out));
     np_random_choice := @np_random_choice C |}.

(** ** Vocabulary of the further properties *)

(** A float of the format: a finite one has a canonical mantissa and an
    exponent within bounds.  Every float64 numpy holds is one. *)
Definition well_formed (x : float) : bool := valid_binary F64.prec F64.emax x.

(** After [k] one-bit shifts of [M], the record holds a mantissa [m] with
    [m * 2^k <= M], strictly below when a discarded bit was set. *)
Definition shifted (M k : Z) (mrs : shr_record) : Prop :=
  0 <= shr_m mrs
  /\ shr_m mrs * 2 ^ k <= M
  /\ (shr_r mrs || shr_s mrs = true -> shr_m mrs * 2 ^ k < M).

(** The error of masking two arrays whose lengths differ, one of them with
    two or more entries: when the other has length one it is broadcast and
    the indexing that follows fails, otherwise the mask itself cannot be
    built. *)
Definition shape_error (xs ys : ndarray) : exn :=
  if Nat.eqb (length xs) 1 || Nat.eqb (length ys) 1 then IndexError
  else ValueError.

(** A mask computed from two arrays of lengths [n] and [n'] that differ:
    either it could not be built, or one operand was broadcast and the mask
    has the length of the other. *)
Definition broadcast_mask (n n' : nat) (c : result (list bool)) : Prop :=
  (c = Raise ValueError /\ n <> 1%nat /\ n' <> 1%nat)
  \/ exists m, c = Ok m
               /\ ((n = 1%nat /\ length m = n')
                   \/ (n' = 1%nat /\ n <> 1%nat /\ length m = n)).

(** Case analysis on the first computation of a sequence that returned. *)
Ltac bind_ok H :=
  match type of H with
  | bind ?c _ = Ok _ =>
      let E := fresh "E" in
      destruct c eqn:E; simpl in H; [|discriminate H]
  end.

(** * Properties *)

(** ** Masks and filtering *)

Lemma zip_with_length {A B D : Type} (f : A -> B -> D) (a : list A) (b : list B) :
  length a = length b -> length (zip_with f a b) = length a.
Proof.
  revert b; induction a as [|x a IH]; intros [|y b] H; simpl in *;
    try discriminate; auto.
Qed.

Lemma zip_with_map {A B A' B' D : Type} (f : A' -> B' -> D)
  (u : A -> A') (v : B -> B') (a : list A) (b : list B) :
  zip_with f (map u a) (map v b) = zip_with (fun x y => f (u x) (v y)) a b.
Proof.
  revert b; induction a as [|x a IH]; intros [|y b]; simpl; auto.
  now rewrite IH.
Qed.

Lemma zip_with_ext {A B D : Type} (f f' : A -> B -> D) (a : list A) (b : list B) :
  (forall x y, f x y = f' x y) -> zip_with f a b = zip_with f' a b.
Proof.
  intros E; revert b; induction a as [|x a IH]; intros [|y b]; simpl; auto.
  now rewrite E, IH.
Qed.

Lemma zip_with_nth_error {A B D : Type} (f : A -> B -> D) (a : list A)
  (b : list B) (i : nat) (x : A) (y : B) :
  nth_error a i = Some x -> nth_error b i = Some y ->
  nth_error (zip_with f a b) i = Some (f x y).
Proof.
  revert b i; induction a as [|x0 a IH]; intros [|y0 b] [|i] Ha Hb;
    simpl in *; try discriminate.
  - now inversion Ha; inversion Hb.
  - now apply IH.
Qed.

Lemma np_and_same_length (a b : list bool) :
  length a = length b -> np_and a b = Ok (zip_with andb a b).
Proof.
  intros H; unfold np_and. now rewrite H, Nat.eqb_refl.
Qed.

Lemma nan_mask_eq (xs ys : ndarray) :
  length xs = length ys ->
  nan_mask xs ys = Ok (zip_with both_not_nan xs ys).
Proof.
  intros H; unfold nan_mask, np_invert, np_isnan.
  rewrite np_and_same_length by now rewrite !length_map.
  now rewrite !map_map, zip_with_map.
Qed.

Lemma finite_mask_eq (xs ys : ndarray) :
  length xs = length ys ->
  finite_mask xs ys = Ok (zip_with both_finite xs ys).
Proof.
  intros H; unfold finite_mask, np_isfinite.
  rewrite np_and_same_length by now rewrite !length_map.
  now rewrite zip_with_map.
Qed.

Lemma zip_with_andb {A B : Type} (p q : A -> B -> bool) (a : list A) (b : list B) :
  zip_with andb (zip_with p a b) (zip_with q a b)
  = zip_with (fun x y => p x y && q x y) a b.
Proof.
  revert b; induction a as [|x a IH]; intros [|y b]; simpl; auto.
  now rewrite IH.
Qed.

Lemma finite_not_nan (x y : float) :
  both_not_nan x y && both_finite x y = both_finite x y.
Proof. now destruct x, y. Qed.

Lemma select_rows {A B : Type} (p : A -> B -> bool) (a : list A) (b : list B) :
  length a = length b ->
  select a (zip_with p a b)
    = map fst (filter (fun r => p (fst r) (snd r)) (combine a b))
  /\ select b (zip_with p a b)
    = map snd (filter (fun r => p (fst r) (snd r)) (combine a b)).
Proof.
  revert b; induction a as [|x a IH]; intros [|y b] H; simpl in *;
    try discriminate; auto.
  destruct (IH b) as [Ia Ib]; [congruence|].
  destruct (p x y); simpl; rewrite Ia, Ib; auto.
Qed.

Lemma bool_index_xs (p : float -> float -> bool) (xs ys : ndarray) :
  length xs = length ys ->
  np_bool_index xs (zip_with p xs ys) = Ok (xs_where p xs ys).
Proof.
  intros H; unfold np_bool_index.
  rewrite zip_with_length, Nat.eqb_refl by assumption.
  now rewrite (proj1 (select_rows p xs ys H)).
Qed.

Lemma bool_index_ys (p : float -> float -> bool) (xs ys : ndarray) :
  length xs = length ys ->
  np_bool_index ys (zip_with p xs ys) = Ok (ys_where p xs ys).
Proof.
  intros H; unfold np_bool_index.
  rewrite zip_with_length, H, Nat.eqb_refl by assumption.
  now rewrite (proj2 (select_rows p xs ys H)).
Qed.

Lemma where_length (p : float -> float -> bool) (xs ys : ndarray) :
  length (xs_where p xs ys) = length (ys_where p xs ys).
Proof. unfold xs_where, ys_where. now rewrite !length_map. Qed.

Lemma combine_fst_snd {A B : Type} (l : list (A * B)) :
  combine (map fst l) (map snd l) = l.
Proof.
  induction l as [|[a b] l IH]; simpl; auto. now rewrite IH.
Qed.

Lemma filter_idem {A : Type} (f : A -> bool) (l : list A) :
  filter f (filter f l) = filter f l.
Proof.
  induction l as [|a l IH]; simpl; auto.
  destruct (f a) eqn:E; simpl; rewrite ?E, IH; auto.
Qed.

(** Filtering is idempotent: the kept rows are all kept again. *)
Lemma rows_where_idem (p : float -> float -> bool) (xs ys : ndarray) :
  rows_where p (xs_where p xs ys) (ys_where p xs ys) = rows_where p xs ys.
Proof.
  unfold xs_where, ys_where, rows_where at 1.
  rewrite combine_fst_snd. apply filter_idem.
Qed.


Lemma where_idem_xs (p : float -> float -> bool) (xs ys : ndarray) :
  xs_where p (xs_where p xs ys) (ys_where p xs ys) = xs_where p xs ys.
Proof. unfold xs_where at 1. now rewrite rows_where_idem. Qed.

Lemma where_idem_ys (p : float -> float -> bool) (xs ys : ndarray) :
  ys_where p (xs_where p xs ys) (ys_where p xs ys) = ys_where p xs ys.
Proof. unfold ys_where at 1. now rewrite rows_where_idem. Qed.

Lemma rows_where_ext (p q : float -> float -> bool) (xs ys : ndarray) :
  (forall x y, In (x, y) (combine xs ys) -> p x y = q x y) ->
  rows_where p xs ys = rows_where q xs ys.
Proof.
  intros H; unfold rows_where. apply filter_ext_in.
  intros [x y] Hin; simpl. now apply H.
Qed.

(** Without infinite values the two notions of validity keep the same
    rows. *)
Lemma rows_where_no_infinity (xs ys : ndarray) :
  (forall x, In x xs \/ In x ys -> F64.isinf x = false) ->
  rows_where both_not_nan xs ys = rows_where both_finite xs ys.
Proof.
  intros H; apply rows_where_ext; intros x y Hin.
  pose proof (H x (or_introl (in_combine_l _ _ _ _ Hin))) as Hx.
  pose proof (H y (or_intror (in_combine_r _ _ _ _ Hin))) as Hy.
  now destruct x, y.
Qed.

Section Wrappers.

Context {C : Collaborators}.
Variables xs ys : ndarray.
Hypothesis same_length : length xs = length ys.

Lemma log_spearmanr_eq :
  log_spearmanr xs ys
  = spearmanr (xs_where both_not_nan xs ys) (ys_where both_not_nan xs ys).
Proof.
  unfold log_spearmanr. rewrite nan_mask_eq by assumption; simpl.
  now rewrite bool_index_xs, bool_index_ys by assumption.
Qed.

Lemma log_pearsonr_eq :
  log_pearsonr xs ys
  = pearsonr (xs_where both_not_nan xs ys) (ys_where both_not_nan xs ys).
Proof.
  unfold log_pearsonr. rewrite nan_mask_eq by assumption; simpl.
  now rewrite bool_index_xs, bool_index_ys by assumption.
Qed.

Lemma log_linregress_eq :
  log_linregress xs ys
  = linregress (xs_where both_not_nan xs ys) (ys_where both_not_nan xs ys).
Proof.
  unfold log_linregress. rewrite nan_mask_eq by assumption; simpl.
  now rewrite bool_index_xs, bool_index_ys by assumption.
Qed.

Lemma odr_mask_eq : odr_mask xs ys = Ok (zip_with both_finite xs ys).
Proof.
  unfold odr_mask.
  rewrite nan_mask_eq, finite_mask_eq by assumption; simpl.
  rewrite np_and_same_length by now rewrite !zip_with_length.
  rewrite zip_with_andb. f_equal. apply zip_with_ext, finite_not_nan.
Qed.

End Wrappers.

(** C6, as the specification states it, fails: the mask of the three
    wrappers is true at an index whose x-value is infinite. *)
Lemma nan_mask_keeps_infinity :
  nan_mask [F64.pinf; F64.one] [F64.zero; F64.one] = Ok [true; true]
  /\ both_finite F64.pinf F64.zero = false.
Proof. split; reflexivity. Qed.

(** C6, amended: for every input pair of equal lengths the mask built by
    [log_spearmanr], [log_pearsonr] and [log_linregress] has the length of
    the input and is true at an index if and only if neither value at that
    index is NaN; an index with an infinite value and no NaN is kept.  The
    statistic is applied to the entries selected by that mask. *)
Theorem nan_mask_spec (C : Collaborators) (xs ys : ndarray) :
  length xs = length ys ->
  exists mask,
    nan_mask xs ys = Ok mask
    /\ length mask = length xs
    /\ (forall i x y,
          nth_error xs i = Some x -> nth_error ys i = Some y ->
          nth_error mask i = Some (negb (F64.isnan x) && negb (F64.isnan y)))
    /\ (forall i x y,
          nth_error xs i = Some x -> nth_error ys i = Some y ->
          F64.isinf x = true -> F64.isnan y = false ->
          nth_error mask i = Some true)
    /\ log_spearmanr xs ys = spearmanr (select xs mask) (select ys mask)
    /\ log_pearsonr xs ys = pearsonr (select xs mask) (select ys mask)
    /\ log_linregress xs ys = linregress (select xs mask) (select ys mask).
Proof.
  intros H. exists (zip_with both_not_nan xs ys).
  destruct (select_rows both_not_nan xs ys H) as [Sx Sy].
  repeat split.
  - now apply nan_mask_eq.
  - now apply zip_with_length.
  - intros i x y Hx Hy.
    exact (zip_with_nth_error both_not_nan _ _ _ _ _ Hx Hy).
  - intros i x y Hx Hy Ix Ny.
    rewrite (zip_with_nth_error both_not_nan _ _ _ _ _ Hx Hy).
    unfold both_not_nan. rewrite Ny. now destruct x.
  - rewrite Sx, Sy. now apply log_spearmanr_eq.
  - rewrite Sx, Sy. now apply log_pearsonr_eq.
  - rewrite Sx, Sy. now apply log_linregress_eq.
Qed.

Lemma nan_mask_spec_witness :
  length [F64.pinf; F64.nan; F64.one] = length [F64.zero; F64.one; F64.one]
  /\ exists mask,
       nan_mask [F64.pinf; F64.nan; F64.one] [F64.zero; F64.one; F64.one]
         = Ok mask
       /\ nth_error mask 0 = Some true
       /\ nth_error mask 1 = Some false.
Proof.
  split; [reflexivity|].
  destruct (nan_mask_spec Reference.collaborators
              [F64.pinf; F64.nan; F64.one] [F64.zero; F64.one; F64.one]
              eq_refl) as (mask & Hm & _ & Hi & _).
  exists mask. split; [exact Hm|]. split.
  - apply (Hi 0%nat F64.pinf F64.zero); reflexivity.
  - apply (Hi 1%nat F64.nan F64.one); reflexivity.
Defined.

(** C5, as the specification states it (a row is valid when both values are
    finite), fails: with one infinite x-value and two valid rows, each
    wrapper differs from its statistic on the two valid rows. *)
Lemma wrappers_see_infinite_row :
  let C := Reference.collaborators in
  let xs := [F64.pinf; F64.of_Z 1; F64.of_Z 2] in
  let ys := [F64.of_Z 1; F64.of_Z 2; F64.of_Z 3] in
  let xs' := xs_where both_finite xs ys in
  let ys' := ys_where both_finite xs ys in
  count_valid xs ys = 2%nat
  /\ log_spearmanr xs ys <> spearmanr xs' ys'
  /\ log_pearsonr xs ys <> pearsonr xs' ys'
  /\ log_linregress xs ys <> linregress xs' ys'.
Proof.
  repeat split; try reflexivity; vm_compute; discriminate.
Qed.

(** C5, amended: for all paired sequences of equal length, each masking
    function returns exactly the result of its statistic on the two
    sequences with the rows that hold a NaN removed, in order, and the
    same result as on those pre-cleaned sequences; rows with an infinite
    value are not removed.  On sequences without infinite values these are
    the rows the specification calls valid. *)
Theorem masking_removes_nan_rows (C : Collaborators) (xs ys : ndarray) :
  length xs = length ys ->
  let xs' := xs_where both_not_nan xs ys in
  let ys' := ys_where both_not_nan xs ys in
  (log_spearmanr xs ys = spearmanr xs' ys'
   /\ log_spearmanr xs ys = log_spearmanr xs' ys')
  /\ (log_pearsonr xs ys = pearsonr xs' ys'
      /\ log_pearsonr xs ys = log_pearsonr xs' ys')
  /\ (log_linregress xs ys = linregress xs' ys'
      /\ log_linregress xs ys = log_linregress xs' ys')
  /\ ((forall x, In x xs \/ In x ys -> F64.isinf x = false) ->
      xs' = xs_where both_finite xs ys /\ ys' = ys_where both_finite xs ys).
Proof.
  intros H xs' ys'.
  pose proof (where_length both_not_nan xs ys) as H'.
  repeat split.
  - now apply log_spearmanr_eq.
  - rewrite (log_spearmanr_eq xs' ys' H'). subst xs' ys'.
    rewrite where_idem_xs, where_idem_ys. now apply log_spearmanr_eq.
  - now apply log_pearsonr_eq.
  - rewrite (log_pearsonr_eq xs' ys' H'). subst xs' ys'.
    rewrite where_idem_xs, where_idem_ys. now apply log_pearsonr_eq.
  - now apply log_linregress_eq.
  - rewrite (log_linregress_eq xs' ys' H'). subst xs' ys'.
    rewrite where_idem_xs, where_idem_ys. now apply log_linregress_eq.
  - subst xs'. unfold xs_where. now rewrite rows_where_no_infinity.
  - subst ys'. unfold ys_where. now rewrite rows_where_no_infinity.
Qed.

Lemma masking_removes_nan_rows_witness :
  let C := Reference.collaborators in
  let xs := [F64.of_Z 1; F64.nan; F64.of_Z 2; F64.of_Z 4] in
  let ys := [F64.of_Z 3; F64.of_Z 5; F64.of_Z 5; F64.nan] in
  length xs = length ys
  /\ log_pearsonr xs ys = pearsonr [F64.of_Z 1; F64.of_Z 2] [F64.of_Z 3; F64.of_Z 5].
Proof.
  split; [reflexivity|].
  exact (proj1 (proj1 (proj2 (masking_removes_nan_rows Reference.collaborators
    [F64.of_Z 1; F64.nan; F64.of_Z 2; F64.of_Z 4]
    [F64.of_Z 3; F64.of_Z 5; F64.of_Z 5; F64.nan] eq_refl)))).
Defined.

(** ** The orthogonal-distance fit *)

Section Fit.

Context {C : Collaborators}.
Variables xs ys : ndarray.
Hypothesis same_length : length xs = length ys.

(** After masking, the fit is a sequence of three collaborator calls on
    the valid rows. *)
Lemma fit_power_law_odr_masked (unit_exp : bool) :
  let xs_ := xs_where both_finite xs ys in
  let ys_ := ys_where both_finite xs ys in
  fit_power_law_odr xs ys unit_exp
  = (linreg <- linregress xs_ ys_ ;;
     out <- odr_run (if unit_exp then _slope_one else _lin_f) xs_ ys_
              (if unit_exp then [lr_intercept linreg]
               else [lr_slope linreg; lr_intercept linreg]) ;;
     '(slope, intercept) <-
        (if unit_exp
         then b0 <- getitem (beta out) 0 ;; Ok (PyInt 1, b0)
         else '(b0, b1) <- unpack2 (beta out) ;; Ok (PyFloat b0, b1)) ;;
     '(r, _) <- pearsonr xs_ ys_ ;;
     Ok (slope, np_exp intercept, r)).
Proof.
  intros xs_ ys_.
  unfold fit_power_law_odr. rewrite odr_mask_eq by assumption; simpl.
  now rewrite bool_index_xs, bool_index_ys by assumption.
Qed.

End Fit.

(** The stopping code of the solver has no influence on the fit. *)
Lemma fit_ignores_info (C : Collaborators) (h : OdrOutput -> Z)
  (xs ys : ndarray) (unit_exp : bool) :
  @fit_power_law_odr (with_info C h) xs ys unit_exp
  = @fit_power_law_odr C xs ys unit_exp.
Proof.
  unfold fit_power_law_odr; simpl.
  destruct (odr_mask xs ys) as [mask|]; simpl; auto.
  destruct (np_bool_index xs mask) as [xs_|]; simpl; auto.
  destruct (np_bool_index ys mask) as [ys_|]; simpl; auto.
  destruct (linregress xs_ ys_) as [lr|]; simpl; auto.
  destruct (odr_run _ xs_ ys_ _) as [out|]; simpl; auto.
Qed.


(** C2, as the specification states it, fails: on three points that are
    not on a line the solver run of the fit stops without converging, and
    the fit returns a result all the same. *)
Lemma fit_returns_unconverged_run :
  let C := Reference.collaborators in
  let xs := [F64.of_Z 1; F64.of_Z 2; F64.of_Z 3] in
  let ys := [F64.of_Z 2; F64.of_Z 1; F64.of_Z 7] in
  match linregress xs ys with
  | Ok lr =>
      match odr_run _lin_f xs ys [lr_slope lr; lr_intercept lr] with
      | Ok out => converged out = false
      | Raise _ => False
      end
  | Raise _ => False
  end
  /\ returns (fit_power_law_odr xs ys false) = true.
Proof. split; vm_compute; reflexivity. Qed.

(** C2, amended: the fit does not inspect the solver's stopping code.  For
    every input of equal lengths on which the solver run returns an
    output, converged or not, the fit is computed from the parameters of
    that output and returned; it raises only when the parameter vector has
    the wrong length or a collaborator raises.  Replacing the stopping
    code of the solver by any other leaves the fit unchanged. *)
Theorem fit_returns_solver_output (C : Collaborators) (xs ys : ndarray)
  (unit_exp : bool) (lr : LinregressResult) (out : OdrOutput) (r p : float) :
  length xs = length ys ->
  let xs_ := xs_where both_finite xs ys in
  let ys_ := ys_where both_finite xs ys in
  linregress xs_ ys_ = Ok lr ->
  odr_run (if unit_exp then _slope_one else _lin_f) xs_ ys_
    (if unit_exp then [lr_intercept lr] else [lr_slope lr; lr_intercept lr])
    = Ok out ->
  pearsonr xs_ ys_ = Ok (r, p) ->
  fit_power_law_odr xs ys unit_exp
    = (if unit_exp
       then b0 <- getitem (beta out) 0 ;; Ok (PyInt 1, np_exp b0, r)
       else '(b0, b1) <- unpack2 (beta out) ;; Ok (PyFloat b0, np_exp b1, r))
  /\ forall h : OdrOutput -> Z,
       @fit_power_law_odr (with_info C h) xs ys unit_exp
       = fit_power_law_odr xs ys unit_exp.
Proof.
  intros H xs_ ys_ Hlr Hodr Hr. split; [|intros h; apply fit_ignores_info].
  rewrite fit_power_law_odr_masked by assumption.
  fold xs_ ys_. cbv zeta. rewrite Hlr; simpl. rewrite Hodr; simpl.
  destruct unit_exp.
  - destruct (getitem (beta out) 0) as [b0|]; simpl; auto.
    now rewrite Hr.
  - destruct (unpack2 (beta out)) as [[b0 b1]|]; simpl; auto.
    now rewrite Hr.
Qed.

Lemma fit_returns_solver_output_witness :
  let C := Reference.collaborators in
  let xs := [F64.of_Z 1; F64.of_Z 2; F64.of_Z 3] in
  let ys := [F64.of_Z 2; F64.of_Z 1; F64.of_Z 7] in
  length xs = length ys
  /\ exists out r,
    info out = 4
    /\ fit_power_law_odr xs ys false
       = ('(b0, b1) <- unpack2 (beta out) ;; Ok (PyFloat b0, np_exp b1, r)).
Proof.
  intros C xs ys. split; [reflexivity|].
  destruct (linregress xs ys) as [lr|] eqn:Hlr;
    [|vm_compute in Hlr; discriminate Hlr].
  destruct (odr_run _lin_f xs ys [lr_slope lr; lr_intercept lr]) as [out|] eqn:Hodr.
  2: { vm_compute in Hlr. inversion Hlr; subst lr. vm_compute in Hodr. discriminate Hodr. }
  destruct (pearsonr xs ys) as [[r p]|] eqn:Hr;
    [|vm_compute in Hr; discriminate Hr].
  exists out, r. split.
  - vm_compute in Hlr. inversion Hlr; subst lr. vm_compute in Hodr.
    inversion Hodr. reflexivity.
  - exact (proj1 (fit_returns_solver_output C xs ys false lr out r p
                    eq_refl Hlr Hodr Hr)).
Defined.

(** C3: whenever the fit with [unit_exp] returns, the exponent is the
    integer 1 (the float 1.0 once placed in an array), and the prefactor is
    the exponential of the single parameter fitted for the one-parameter
    model [f(p, x) = x + p[0]], started from the intercept of the ordinary
    least-squares fit. *)
Theorem unit_exponent_is_one (C : Collaborators) (xs ys : ndarray)
  (exponent : number) (prefactor r : float) :
  fit_power_law_odr xs ys true = Ok (exponent, prefactor, r) ->
  exponent = PyInt 1
  /\ to_float64 exponent = F64.one
  /\ (exists mask xs_ ys_ lr out b0,
        odr_mask xs ys = Ok mask
        /\ np_bool_index xs mask = Ok xs_
        /\ np_bool_index ys mask = Ok ys_
        /\ linregress xs_ ys_ = Ok lr
        /\ odr_run _slope_one xs_ ys_ [lr_intercept lr] = Ok out
        /\ getitem (beta out) 0 = Ok b0
        /\ prefactor = np_exp b0)
  /\ (forall p0 x, _slope_one [p0] x = Ok (map (fun xi => F64.add xi p0) x)).
Proof.
  intros H. unfold fit_power_law_odr in H.
  bind_ok H. bind_ok H. bind_ok H. bind_ok H. bind_ok H.
  destruct (getitem (beta a3) 0) as [b0|] eqn:Eb; simpl in H; [|discriminate].
  destruct (pearsonr a0 a1) as [[r' p']|] eqn:Er; simpl in H; [|discriminate].
  inversion H; subst. repeat split.
  exists a, a0, a1, a2, a3, b0. repeat split; assumption.
Qed.

Lemma unit_exponent_is_one_witness :
  let C := Reference.collaborators in
  let xs := map (fun z => np_log (F64.of_Z z)) [1; 2; 4; 8; 16; 32] in
  let ys := map (fun z => np_log (F64.of_Z z)) [2; 4; 8; 16; 32; 64] in
  let prefactor := S754_finite false 9007199254740991 (-52) in
  fit_power_law_odr xs ys true = Ok (PyInt 1, prefactor, F64.one)
  /\ to_float64 (PyInt 1) = F64.one.
Proof.
  intros C xs ys prefactor.
  assert (H : fit_power_law_odr xs ys true = Ok (PyInt 1, prefactor, F64.one))
    by (vm_compute; reflexivity).
  split; [exact H|].
  exact (proj1 (proj2 (unit_exponent_is_one C xs ys _ _ _ H))).
Defined.

(** C7: the fit does not count the valid points itself; it fails through
    its collaborators.  [pearsonr] is called on the valid rows before
    anything is returned, and scipy's [pearsonr] refuses fewer than two
    points.  With a [pearsonr] that does so, for every input of equal
    lengths the fit fails when fewer than 2 valid rows remain and no
    constraint is set, and when fewer than 1 valid row remains under
    [unit_exp] (there also with a single valid row), with the error of the
    collaborator that raised first. *)
Theorem fit_needs_enough_points (C : Collaborators) (xs ys : ndarray)
  (unit_exp : bool) :
  (forall a b : ndarray, (length a < 2)%nat -> exists e, pearsonr a b = Raise e) ->
  length xs = length ys ->
  ((count_valid xs ys < (if unit_exp then 1 else 2))%nat ->
   exists e, fit_power_law_odr xs ys unit_exp = Raise e)
  /\ ((count_valid xs ys < 2)%nat ->
      exists e, fit_power_law_odr xs ys unit_exp = Raise e).
Proof.
  intros Hp H.
  assert (Hfew : (count_valid xs ys < 2)%nat ->
                 exists e, fit_power_law_odr xs ys unit_exp = Raise e).
  { intros Hc.
    rewrite fit_power_law_odr_masked by assumption. cbv zeta.
    destruct (Hp (xs_where both_finite xs ys) (ys_where both_finite xs ys))
      as [e He].
    { unfold xs_where. rewrite length_map. exact Hc. }
    destruct (linregress _ _) as [lr|e0]; simpl; [|now exists e0].
    destruct (odr_run _ _ _ _) as [out|e1]; simpl; [|now exists e1].
    destruct unit_exp.
    - destruct (getitem (beta out) 0) as [b0|e2]; simpl; [|now exists e2].
      rewrite He. now exists e.
    - destruct (unpack2 (beta out)) as [[b0 b1]|e2]; simpl; [|now exists e2].
      rewrite He. now exists e. }
  split; [|exact Hfew].
  intros Hc. apply Hfew. destruct unit_exp; lia.
Qed.

Lemma fit_needs_enough_points_witness :
  let C := Reference.collaborators in
  let xs := [F64.of_Z 1; F64.nan] in
  let ys := [F64.of_Z 2; F64.of_Z 3] in
  (forall a b : ndarray, (length a < 2)%nat -> exists e, pearsonr a b = Raise e)
  /\ length xs = length ys
  /\ count_valid xs ys = 1%nat
  /\ (exists e, fit_power_law_odr xs ys false = Raise e)
  /\ (exists e, fit_power_law_odr xs ys true = Raise e).
Proof.
  intros C xs ys.
  assert (Hp : forall a b : ndarray, (length a < 2)%nat ->
                                     exists e, pearsonr a b = Raise e).
  { intros a b Ha. exists ValueError.
    unfold pearsonr, C, Reference.collaborators, Reference.pearsonr.
    destruct a as [|x [|x' a]]; cbn [length] in *;
      [| |lia]; now rewrite Bool.andb_false_r. }
  assert (Hc : (count_valid xs ys < 2)%nat) by (vm_compute; lia).
  split; [exact Hp|]. split; [reflexivity|]. split; [reflexivity|]. split.
  - exact (proj1 (fit_needs_enough_points C xs ys false Hp eq_refl) Hc).
  - exact (proj2 (fit_needs_enough_points C xs ys true Hp eq_refl) Hc).
Defined.

(** X17: the fit fails through its collaborators.  For every input of equal
    lengths, however few valid rows remain, it calls [linregress] on them
    and fails with the error of that call when it raises; every error of
    the fit is the error of [linregress], of the solver run or of
    [pearsonr] on the valid rows, or comes from a parameter vector of the
    wrong length. *)
Theorem fit_fails_through_collaborators (C : Collaborators) (xs ys : ndarray)
  (unit_exp : bool) :
  length xs = length ys ->
  let xs_ := xs_where both_finite xs ys in
  let ys_ := ys_where both_finite xs ys in
  let f := if unit_exp then _slope_one else _lin_f in
  let beta0 lr :=
    if unit_exp then [lr_intercept lr] else [lr_slope lr; lr_intercept lr] in
  (forall e, linregress xs_ ys_ = Raise e ->
             fit_power_law_odr xs ys unit_exp = Raise e)
  /\ (forall e, fit_power_law_odr xs ys unit_exp = Raise e ->
        linregress xs_ ys_ = Raise e
        \/ (exists lr, linregress xs_ ys_ = Ok lr
                       /\ odr_run f xs_ ys_ (beta0 lr) = Raise e)
        \/ (exists lr out, linregress xs_ ys_ = Ok lr
                           /\ odr_run f xs_ ys_ (beta0 lr) = Ok out
                           /\ (if unit_exp
                               then beta out = [] /\ e = IndexError
                               else length (beta out) <> 2%nat /\ e = ValueError))
        \/ pearsonr xs_ ys_ = Raise e).
Proof.
  intros H xs_ ys_ f beta0.
  rewrite fit_power_law_odr_masked by assumption. fold xs_ ys_. cbv zeta.
  split.
  - intros e He. now rewrite He.
  - intros e He.
    destruct (linregress xs_ ys_) as [lr|e0] eqn:Hlr; simpl in He;
      [|left; now inversion He].
    right.
    destruct (odr_run f xs_ ys_ (beta0 lr)) as [out|e1] eqn:Hodr;
      subst f beta0; cbv beta in Hodr; rewrite Hodr in He; simpl in He.
    2: { left. exists lr. split; [reflexivity|]. inversion He; subst e1.
         exact Hodr. }
    right.
    destruct unit_exp.
    + destruct (beta out) as [|b0 bs] eqn:Hb; simpl in He.
      * left. exists lr, out. inversion He. auto.
      * right. unfold bind in He.
        destruct (pearsonr xs_ ys_) as [[r p]|e2];
          [discriminate He|now inversion He].
    + destruct (beta out) as [|b0 [|b1 [|b2 bs]]] eqn:Hb; simpl in He;
        try (left; exists lr, out; inversion He; repeat split; auto;
             rewrite Hb; simpl; discriminate).
      right. unfold bind in He.
      destruct (pearsonr xs_ ys_) as [[r p]|e2];
        [discriminate He|now inversion He].
Qed.

Lemma fit_fails_through_collaborators_witness :
  let C := Reference.collaborators in
  let xs := [F64.nan; F64.pinf] in
  let ys := [F64.of_Z 2; F64.of_Z 3] in
  length xs = length ys
  /\ linregress (xs_where both_finite xs ys) (ys_where both_finite xs ys)
     = Raise ValueError
  /\ fit_power_law_odr xs ys true = Raise ValueError.
Proof.
  intros C xs ys.
  assert (Hlr : linregress (xs_where both_finite xs ys)
                  (ys_where both_finite xs ys) = Raise ValueError)
    by reflexivity.
  split; [reflexivity|]. split; [exact Hlr|].
  exact (proj1 (fit_fails_through_collaborators C xs ys true eq_refl)
           ValueError Hlr).
Defined.



(** ** Bootstrap *)

Lemma np_sum_rows (p : float -> float -> bool) (xs ys : ndarray) :
  length xs = length ys ->
  np_sum (zip_with p xs ys) = Z.of_nat (length (rows_where p xs ys)).
Proof.
  unfold np_sum, rows_where. intros H; f_equal.
  revert ys H; induction xs as [|x xs IH]; intros [|y ys] H; simpl in *;
    try discriminate; auto.
  destruct (p x y); simpl; rewrite IH; auto.
Qed.

Lemma py_int_returns (x : float) : returns (py_int x) = F64.isfinite x.
Proof. now destruct x. Qed.

(** *** The subset size *)

Lemma binary_round_aux_sign (sx : bool) (mx ex : Z) (lx : location)
  (s : bool) (m : positive) (e : Z) :
  binary_round_aux F64.prec F64.emax sx mx ex lx = S754_finite s m e -> s = sx.
Proof.
  unfold binary_round_aux.
  destruct (shr_fexp _ _ mx ex lx) as [mrs' e'].
  destruct (shr_fexp _ _ _ e' loc_Exact) as [mrs'' e''].
  destruct (shr_m mrs''); try discriminate.
  destruct (Z.leb _ _); try discriminate.
  now intros H; inversion H.
Qed.

Lemma of_Z_sign (z : Z) (s : bool) (m : positive) (e : Z) :
  0 <= z -> F64.of_Z z = S754_finite s m e -> s = false.
Proof.
  intros Hz. unfold F64.of_Z, binary_normalize.
  destruct z as [|p|p]; try discriminate; [|lia].
  unfold binary_round. destruct (shl_align _ _ _) as [mz ez].
  apply binary_round_aux_sign.
Qed.

Lemma mul_sign (x y : float) (s : bool) (m : positive) (e : Z) :
  F64.leb F64.zero x = true ->
  (forall sy my ey, y = S754_finite sy my ey -> sy = false) ->
  F64.mul x y = S754_finite s m e -> s = false.
Proof.
  intros Hx Hy. unfold F64.mul, SFmul.
  destruct x as [sx|sx| |sx mx ex], y as [sy|sy| |sy my ey]; try discriminate.
  destruct sx; [discriminate Hx|].
  rewrite (Hy sy my ey eq_refl). apply binary_round_aux_sign.
Qed.

Lemma shiftl_floor (m : positive) (e : Z) :
  Z.shiftl (Zpos m) e = Qfloor (F64.to_Q (S754_finite false m e)).
Proof.
  unfold F64.to_Q, cond_Zopp. destruct e as [|p|p].
  - now rewrite Z.shiftl_0_r, Z.mul_1_r, Qfloor_Z.
  - rewrite Qfloor_Z. now rewrite Z.shiftl_mul_pow2 by lia.
  - change (Z.shiftl (Zpos m) (Zneg p)) with (Z.shiftr (Zpos m) (Zpos p)).
    rewrite Z.shiftr_div_pow2 by lia. unfold Qfloor.
    now rewrite Pos2Z.inj_pow.
Qed.

(** For a fraction that is not negative the integer conversion is the
    floor of the float product. *)
Lemma subset_size_floor (fraction : float) (tot k : Z) :
  F64.leb F64.zero fraction = true -> 0 <= tot ->
  subset_size_of fraction tot = Ok k ->
  k = Qfloor (F64.to_Q (F64.mul fraction (F64.of_Z tot))).
Proof.
  intros Hf Ht. unfold subset_size_of.
  destruct (F64.mul fraction (F64.of_Z tot)) as [s|s| |s m e] eqn:E;
    simpl; try discriminate.
  - now intros H; inversion H.
  - intros H; inversion H.
    assert (s = false) as ->.
    { apply (mul_sign fraction (F64.of_Z tot) s m e Hf); [|exact E].
      intros sy my ey Hy. now apply (of_Z_sign tot sy my ey). }
    apply shiftl_floor.
Qed.

(** *** The loop *)

Section Loop.

Context {C : Collaborators}.
Variables masked_xs masked_ys : ndarray.
Variables tot k : Z.

Lemma rounds_run_length (n : nat) (g g' : rng)
  (fits : list (number * float * float)) :
  rounds_run masked_xs masked_ys tot k n g fits g' -> length fits = n.
Proof. induction 1; simpl; congruence. Qed.

(** A round returns exactly when its draw, its gathering and its fit do. *)
Lemma bootstrap_round_ok (g g' : rng) (fit : number * float * float) :
  bootstrap_round masked_xs masked_ys tot k g = (Ok fit, g') <->
  exists idxs xs_sub ys_sub,
    np_random_choice tot k g = (Ok idxs, g')
    /\ np_take masked_xs idxs = Ok xs_sub
    /\ np_take masked_ys idxs = Ok ys_sub
    /\ fit_power_law_odr (map np_log xs_sub) (map np_log ys_sub) false = Ok fit.
Proof.
  unfold bootstrap_round. split.
  - destruct (np_random_choice tot k g) as [[idxs|e] g1]; [|discriminate].
    intros H. inversion H as [[H1 H2]]. subst g1.
    destruct (np_take masked_xs idxs) as [xs_sub|] eqn:Hx; simpl in *;
      [|discriminate].
    destruct (np_take masked_ys idxs) as [ys_sub|] eqn:Hy; simpl in *;
      [|discriminate].
    exists idxs, xs_sub, ys_sub. auto.
  - intros (idxs & xs_sub & ys_sub & Hc & Hx & Hy & Hf).
    rewrite Hc, Hx; simpl. rewrite Hy; simpl. now rewrite Hf.
Qed.


Lemma bootstrap_loop_ok (n : nat) :
  forall (es : list number) (ps rs : list float) (g g' : rng)
         (es' : list number) (ps' rs' : list float),
  bootstrap_loop n masked_xs masked_ys tot k es ps rs g
    = (Ok (es', ps', rs'), g') <->
  exists fits,
    rounds_run masked_xs masked_ys tot k n g fits g'
    /\ es' = es ++ map fit_exponent fits
    /\ ps' = ps ++ map fit_prefactor fits
    /\ rs' = rs ++ map fit_r fits.
Proof.
  induction n as [|n IH]; intros es ps rs g g' es' ps' rs'; simpl.
  - split.
    + intros H; inversion H; subst. exists []. simpl.
      rewrite !app_nil_r. repeat split. constructor.
    + intros (fits & Hrun & -> & -> & ->). inversion Hrun; subst. simpl.
      now rewrite !app_nil_r.
  - destruct (bootstrap_round masked_xs masked_ys tot k g)
      as [[[[ex pre] r]|e] g1] eqn:Hround.
    + rewrite IH. apply bootstrap_round_ok in Hround.
      destruct Hround as (idxs & xs_sub & ys_sub & Hc & Hx & Hy & Hf).
      split.
      * intros (fits & Hrun & -> & -> & ->).
        exists ((ex, pre, r) :: fits). simpl.
        rewrite <- !app_assoc. repeat split.
        now apply (rounds_step _ _ _ _ n g idxs g1 xs_sub ys_sub).
      * intros (fits & Hrun & -> & -> & ->).
        inversion Hrun as [|n0 g0 idxs0 g10 xs0 ys0 fit0 fits0 g20 Hc0 Hx0 Hy0 Hf0 Hrest];
          subst.
        rewrite Hc in Hc0. inversion Hc0; subst idxs0 g10.
        rewrite Hx in Hx0. inversion Hx0; subst xs0.
        rewrite Hy in Hy0. inversion Hy0; subst ys0.
        rewrite Hf in Hf0. inversion Hf0; subst fit0.
        exists fits0. simpl. rewrite <- !app_assoc. repeat split. exact Hrest.
    + split; [discriminate|].
      intros (fits & Hrun & _).
      inversion Hrun as [|n0 g0 idxs0 g10 xs0 ys0 fit0 fits0 g20 Hc0 Hx0 Hy0 Hf0 Hrest];
        subst.
      assert (Hok : bootstrap_round masked_xs masked_ys tot k g = (Ok fit0, g10)).
      { apply bootstrap_round_ok. exists idxs0, xs0, ys0. auto. }
      rewrite Hround in Hok. discriminate Hok.
Qed.


End Loop.

Section Bootstrap.

Context {C : Collaborators}.
Variables xs ys : ndarray.
Hypothesis same_length : length xs = length ys.

(** After masking and the computation of the subset size, the bootstrap is
    its loop on the valid rows. *)
Lemma bootstrap_power_law_odr_masked (fraction : float) (rounds : Z) (g : rng) :
  bootstrap_power_law_odr xs ys fraction rounds g
  = match subset_size_of fraction (Z.of_nat (count_valid xs ys)) with
    | Raise e => (Raise e, g)
    | Ok subset_size =>
        match bootstrap_loop (Z.to_nat rounds)
                (xs_where both_finite xs ys) (ys_where both_finite xs ys)
                (Z.of_nat (count_valid xs ys)) subset_size [] [] [] g with
        | (Raise e, g') => (Raise e, g')
        | (Ok (exponents, prefactors, rs), g') =>
            (Ok (map to_float64 exponents, prefactors, rs), g')
        end
    end.
Proof.
  unfold bootstrap_power_law_odr.
  rewrite finite_mask_eq by assumption; simpl.
  rewrite bool_index_xs, bool_index_ys by assumption; simpl.
  rewrite np_sum_rows by assumption. fold (count_valid xs ys).
  now destruct (subset_size_of _ _).
Qed.

End Bootstrap.




(** C9, as stated for every fraction, fails: an infinite fraction makes the
    product [fraction * tot] infinite, or NaN when no point is valid, and
    [int] raises before the loop, also with [rounds = 0]. *)
Lemma bootstrap_zero_rounds_overflow :
  let C := Reference.collaborators in
  bootstrap_power_law_odr [F64.one] [F64.one] F64.pinf 0 42
    = (Raise OverflowError, 42)
  /\ bootstrap_power_law_odr [F64.nan] [F64.one] F64.pinf 0 42
    = (Raise ValueError, 42).
Proof. split; reflexivity. Qed.

(** C9, amended: the bootstrap does not validate the fraction or the number
    of valid points.  For every input pair of equal lengths, also one
    without valid points, and every fraction whose float product with the
    number of valid points is finite (any finite fraction of ordinary
    size, inside (0, 1] or not), the call with [rounds = 0] returns three
    empty sequences, raises no error and leaves the generator as it was. *)
Theorem bootstrap_zero_rounds (C : Collaborators) (xs ys : ndarray)
  (fraction : float) (g : rng) :
  length xs = length ys ->
  F64.isfinite
    (F64.mul fraction (F64.of_Z (Z.of_nat (count_valid xs ys)))) = true ->
  bootstrap_power_law_odr xs ys fraction 0 g = (Ok ([], [], []), g).
Proof.
  intros H Hfin.
  rewrite bootstrap_power_law_odr_masked by assumption.
  unfold subset_size_of.
  destruct (py_int _) as [k|e] eqn:Hk; [reflexivity|].
  rewrite <- py_int_returns, Hk in Hfin. discriminate Hfin.
Qed.

Lemma bootstrap_zero_rounds_witness :
  let C := Reference.collaborators in
  let xs := [F64.nan; F64.pinf] in
  let ys := [F64.one; F64.one] in
  let fraction := F64.of_Z (-3) in
  length xs = length ys
  /\ count_valid xs ys = 0%nat
  /\ F64.isfinite
       (F64.mul fraction (F64.of_Z (Z.of_nat (count_valid xs ys)))) = true
  /\ bootstrap_power_law_odr xs ys fraction 0 42 = (Ok ([], [], []), 42).
Proof.
  intros C xs ys fraction.
  split; [reflexivity|]. split; [reflexivity|]. split; [reflexivity|].
  apply (bootstrap_zero_rounds C xs ys fraction 42); reflexivity.
Defined.


Section Draws.

Context {C : Collaborators}.
Variables masked_xs masked_ys : ndarray.
Variables tot k : Z.


End Draws.



(** C4: for every fraction that is not negative (so for every valid one)
    and every number of rounds that is not negative, the bootstrap returns
    exactly when [int(fraction * tot)] is defined and every round returns;
    the subset size is then the floor of the float product
    [fraction * tot], each round draws that many indices from
    [range(tot)] with [np.random.choice] (uniform, with replacement),
    gathers the valid values at them, takes their logarithms and fits them
    without the unit-exponent constraint, and the three sequences returned
    hold the exponent, prefactor and r of round i at index i and have
    length exactly [rounds]. *)
Theorem bootstrap_rounds (C : Collaborators) (xs ys : ndarray)
  (fraction : float) (rounds : Z) (g g' : rng) (es ps rs : ndarray) :
  length xs = length ys ->
  F64.leb F64.zero fraction = true ->
  0 <= rounds ->
  let masked_xs := xs_where both_finite xs ys in
  let masked_ys := ys_where both_finite xs ys in
  let tot := Z.of_nat (count_valid xs ys) in
  let subset_size := Qfloor (F64.to_Q (F64.mul fraction (F64.of_Z tot))) in
  (bootstrap_power_law_odr xs ys fraction rounds g = (Ok (es, ps, rs), g') <->
   subset_size_of fraction tot = Ok subset_size
   /\ exists fits,
        rounds_run masked_xs masked_ys tot subset_size (Z.to_nat rounds)
          g fits g'
        /\ es = map (fun t => to_float64 (fit_exponent t)) fits
        /\ ps = map fit_prefactor fits
        /\ rs = map fit_r fits)
  /\ (bootstrap_power_law_odr xs ys fraction rounds g = (Ok (es, ps, rs), g') ->
      Z.of_nat (length es) = rounds
      /\ Z.of_nat (length ps) = rounds
      /\ Z.of_nat (length rs) = rounds).
Proof.
  intros H Hf Hr masked_xs masked_ys tot subset_size.
  assert (Hiff :
    bootstrap_power_law_odr xs ys fraction rounds g = (Ok (es, ps, rs), g') <->
    subset_size_of fraction tot = Ok subset_size
    /\ exists fits,
         rounds_run masked_xs masked_ys tot subset_size (Z.to_nat rounds)
           g fits g'
         /\ es = map (fun t => to_float64 (fit_exponent t)) fits
         /\ ps = map fit_prefactor fits
         /\ rs = map fit_r fits).
  { rewrite bootstrap_power_law_odr_masked by assumption.
    fold masked_xs masked_ys tot.
    destruct (subset_size_of fraction tot) as [k|e] eqn:Hk.
    - assert (k = subset_size) as ->
        by (apply subset_size_floor; [assumption|subst tot; lia|assumption]).
      destruct (bootstrap_loop _ _ _ _ _ _ _ _ g)
        as [[[[es0 ps0] rs0]|e0] g0] eqn:Hl.
      + apply bootstrap_loop_ok in Hl. destruct Hl as (fits & Hrun & He & Hp & Hrs).
        simpl in He, Hp, Hrs. subst es0 ps0 rs0. split.
        * intros Heq. inversion Heq; subst. split; [reflexivity|].
          exists fits. rewrite map_map. auto.
        * intros (_ & fits' & Hrun' & -> & -> & ->).
          assert (Hl' : bootstrap_loop (Z.to_nat rounds) masked_xs masked_ys
                          tot subset_size [] [] [] g
                        = (Ok (map fit_exponent fits', map fit_prefactor fits',
                               map fit_r fits'), g'))
            by (apply bootstrap_loop_ok; exists fits'; auto).
          assert (Hl0 : bootstrap_loop (Z.to_nat rounds) masked_xs masked_ys
                          tot subset_size [] [] [] g
                        = (Ok (map fit_exponent fits, map fit_prefactor fits,
                               map fit_r fits), g0))
            by (apply bootstrap_loop_ok; exists fits; auto).
          rewrite Hl0 in Hl'. inversion Hl' as [[He Hp Hrs Hg]].
          now rewrite He, map_map.
      + split; [discriminate|].
        intros (_ & fits' & Hrun' & _).
        assert (Hl' : bootstrap_loop (Z.to_nat rounds) masked_xs masked_ys
                        tot subset_size [] [] [] g
                      = (Ok (map fit_exponent fits', map fit_prefactor fits',
                             map fit_r fits'), g'))
          by (apply bootstrap_loop_ok; exists fits'; auto).
        rewrite Hl in Hl'. discriminate Hl'.
    - split; [discriminate|]. intros [Hk' _]. discriminate Hk'. }
  split; [exact Hiff|].
  intros Heq. apply Hiff in Heq.
  destruct Heq as (_ & fits & Hrun & -> & -> & ->).
  apply rounds_run_length in Hrun. rewrite !length_map, Hrun. lia.
Qed.

Lemma bootstrap_rounds_witness :
  let C := Reference.collaborators in
  let xs := map F64.of_Z [1; 2; 4; 8; 16; 32] in
  let ys := map F64.of_Z [2; 4; 8; 16; 32; 64] in
  let es := [F64.one; F64.one] in
  let ps := [S754_finite false 4503599627370496 (-51);
             S754_finite false 9007199254740991 (-52)] in
  let rs := [F64.one; F64.one] in
  length xs = length ys
  /\ F64.leb F64.zero default_fraction = true
  /\ 0 <= 2
  /\ bootstrap_power_law_odr xs ys default_fraction 2 42
     = (Ok (es, ps, rs), 4271921684)
  /\ subset_size_of default_fraction 6 = Ok 5
  /\ Z.of_nat (length es) = 2.
Proof.
  intros C xs ys es ps rs.
  assert (Hrun : bootstrap_power_law_odr xs ys default_fraction 2 42
                 = (Ok (es, ps, rs), 4271921684))
    by (vm_compute; reflexivity).
  assert (H0 : 0 <= 2) by lia.
  destruct (bootstrap_rounds C xs ys default_fraction 2 42 4271921684 es ps rs
              eq_refl eq_refl H0) as [Hiff Hlen].
  split; [reflexivity|]. split; [reflexivity|]. split; [exact H0|].
  split; [exact Hrun|]. split.
  - exact (proj1 (proj1 Hiff Hrun)).
  - exact (proj1 (Hlen Hrun)).
Defined.

(** * Further properties *)

(** ** Binary64 arithmetic of the subset size *)

Lemma one_eq : F64.one = S754_finite false 4503599627370496 (-52).
Proof. reflexivity. Qed.

Lemma canonical_fexp (m : positive) (e : Z) :
  bounded F64.prec F64.emax m e = true ->
  fexp F64.prec F64.emax (Zpos (digits2_pos m) + e) = e /\ e <= 971.
Proof.
  unfold bounded, canonical_mantissa. intros H.
  apply andb_true_iff in H. destruct H as [H1 H2].
  apply Z.eqb_eq in H1. apply Z.leb_le in H2.
  split; [exact H1|]. unfold F64.emax, F64.prec in H2. lia.
Qed.

Lemma mul_one_l (x : float) : well_formed x = true -> F64.mul F64.one x = x.
Proof.
  destruct x as [s|s| |s m e]; try reflexivity.
  unfold well_formed, valid_binary. intros Hb.
  destruct (canonical_fexp m e Hb) as [Hc He].
  unfold F64.mul. rewrite one_eq. unfold SFmul.
  change (xorb false s) with s.
  change (Pos.mul 4503599627370496 m) with
    (m~0~0~0~0~0~0~0~0~0~0~0~0~0~0~0~0~0~0~0~0~0~0~0~0~0~0~0~0~0~0~0~0~0~0~0~0~0~0~0~0~0~0~0~0~0~0~0~0~0~0~0~0)%positive.
  unfold binary_round_aux, shr_fexp.
  set (M := (m~0~0~0~0~0~0~0~0~0~0~0~0~0~0~0~0~0~0~0~0~0~0~0~0~0~0~0~0~0~0~0~0~0~0~0~0~0~0~0~0~0~0~0~0~0~0~0~0~0~0~0~0)%positive).
  assert (HdM : Zdigits2 (Zpos M) = Zpos (digits2_pos m) + 52).
  { unfold M, Zdigits2. cbn [digits2_pos]. lia. }
  rewrite HdM.
  replace (Z.pos (digits2_pos m) + 52 + (-52 + e)) with (Zpos (digits2_pos m) + e) by lia.
  rewrite Hc.
  replace (e - (-52 + e)) with 52 by lia.
  unfold shr_record_of_loc, shr.
  assert (Hs : iter_pos shr_1 52 {| shr_m := Zpos M; shr_r := false; shr_s := false |}
               = {| shr_m := Zpos m; shr_r := false; shr_s := false |}).
  { unfold M. reflexivity. }
  rewrite Hs. cbn [shr_m loc_of_shr_record round_nearest_even].
  replace (-52 + e + 52) with e by lia.
  unfold Zdigits2. rewrite Hc. rewrite Z.sub_diag.
  cbn [shr_m]. 
  replace (e <=? F64.emax - F64.prec) with true; [reflexivity|].
  symmetry. apply Z.leb_le. unfold F64.emax, F64.prec. lia.
Qed.

Lemma digits2_pos_bounds (p : positive) :
  2 ^ (Zpos (digits2_pos p) - 1) <= Zpos p < 2 ^ Zpos (digits2_pos p).
Proof.
  induction p as [p IH|p IH|]; cbn [digits2_pos].
  - rewrite Pos2Z.inj_succ.
    replace (Z.succ (Zpos (digits2_pos p)) - 1) with (Z.succ (Zpos (digits2_pos p) - 1)) by lia.
    rewrite !Z.pow_succ_r by lia. lia.
  - rewrite Pos2Z.inj_succ.
    replace (Z.succ (Zpos (digits2_pos p)) - 1) with (Z.succ (Zpos (digits2_pos p) - 1)) by lia.
    rewrite !Z.pow_succ_r by lia. lia.
  - simpl. lia.
Qed.

Lemma digits2_pos_le (p : positive) (n : Z) :
  0 <= n -> Zpos p < 2 ^ n -> Zpos (digits2_pos p) <= n.
Proof.
  intros Hn Hp. destruct (digits2_pos_bounds p) as [Hl _].
  destruct (Z.le_gt_cases (Zpos (digits2_pos p)) n) as [H|H]; [exact H|].
  exfalso. assert (2 ^ n <= 2 ^ (Zpos (digits2_pos p) - 1))
    by (apply Z.pow_le_mono_r; lia).
  lia.
Qed.

Lemma iter_xO_digits (p k : positive) :
  digits2_pos (Pos.iter xO p k) = (digits2_pos p + k)%positive.
Proof.
  induction k as [|k IH] using Pos.peano_ind.
  - simpl. lia.
  - rewrite Pos.iter_succ. cbn [digits2_pos]. rewrite IH. lia.
Qed.

Lemma iter_xO_value (p k : positive) :
  Zpos (Pos.iter xO p k) = Zpos p * 2 ^ Zpos k.
Proof.
  induction k as [|k IH] using Pos.peano_ind.
  - simpl. lia.
  - rewrite Pos.iter_succ, Pos2Z.inj_succ, Z.pow_succ_r by lia.
    rewrite Pos2Z.inj_xO, IH. lia.
Qed.

(** Rounding a number that is already in the format leaves it unchanged. *)
Lemma round_in_format (s : bool) (m : positive) (e : Z) :
  bounded F64.prec F64.emax m e = true ->
  binary_round_aux F64.prec F64.emax s (Zpos m) e loc_Exact = S754_finite s m e.
Proof.
  intros Hb. unfold bounded, canonical_mantissa in Hb.
  apply andb_true_iff in Hb. destruct Hb as [Hc He].
  apply Z.eqb_eq in Hc.
  unfold binary_round_aux, shr_fexp. cbn [Zdigits2].
  rewrite Hc, Z.sub_diag. cbn [shr shr_record_of_loc shr_m loc_of_shr_record round_nearest_even Zdigits2].
  rewrite Hc, Z.sub_diag. cbn [shr shr_m]. now rewrite He.
Qed.

Lemma of_Z_pos (p : positive) :
  Zpos p < 2 ^ 53 ->
  exists m e,
    F64.of_Z (Zpos p) = S754_finite false m e
    /\ bounded F64.prec F64.emax m e = true
    /\ -52 <= e <= 0
    /\ Zpos m < 2 ^ 53
    /\ Zpos m = Zpos p * 2 ^ (- e).
Proof.
  intros Hp.
  pose proof (digits2_pos_le p 53 ltac:(lia) Hp) as Hd.
  unfold F64.of_Z, binary_normalize, binary_round.
  set (d := Zpos (digits2_pos p)) in *.
  assert (Hf : fexp F64.prec F64.emax (d + 0) = d - 53).
  { unfold fexp, emin, F64.prec, F64.emax. lia. }
  rewrite Hf. unfold shl_align. rewrite Z.sub_0_r.
  destruct (d - 53) as [|q|q] eqn:Hq; [| lia |].
  - exists p, 0. 
    assert (Hb : bounded F64.prec F64.emax p 0 = true).
    { unfold bounded, canonical_mantissa.
      fold d. replace (d + 0) with d by lia.
      replace d with 53 by lia. reflexivity. }
    rewrite round_in_format by exact Hb.
    split; [reflexivity|]. split; [exact Hb|]. split; [lia|].
    split; [exact Hp|]. simpl. lia.
  - exists (Pos.iter xO p q), (Zneg q).
    assert (Hb : bounded F64.prec F64.emax (Pos.iter xO p q) (Zneg q) = true).
    { unfold bounded, canonical_mantissa.
      rewrite iter_xO_digits, Pos2Z.inj_add. fold d.
      apply andb_true_iff. split.
      - apply Z.eqb_eq. unfold fexp, emin, F64.prec, F64.emax. lia.
      - apply Z.leb_le. unfold F64.prec, F64.emax. lia. }
    rewrite round_in_format by exact Hb.
    split; [reflexivity|]. split; [exact Hb|].
    assert (Hd1 : 1 <= d) by (unfold d; lia).
    split; [lia|]. rewrite iter_xO_value.
    split; [|reflexivity].
    destruct (digits2_pos_bounds p) as [_ Hu]. fold d in Hu.
    assert (Hq' : Zpos q = 53 - d) by lia.
    assert (H53 : 2 ^ 53 = 2 ^ d * 2 ^ Zpos q)
      by (rewrite <- Z.pow_add_r by lia; f_equal; lia).
    rewrite H53.
    apply Z.mul_lt_mono_pos_r; [apply Z.pow_pos_nonneg; lia|exact Hu].
Qed.

Lemma py_int_of_Z (z : Z) :
  0 <= z < 2 ^ 53 -> py_int (F64.of_Z z) = Ok z.
Proof.
  intros [H0 H1]. destruct z as [|p|p]; [reflexivity| |lia].
  destruct (of_Z_pos p H1) as (m & e & -> & _ & He & _ & Hm).
  unfold py_int, cond_Zopp. f_equal.
  destruct e as [|q|q]; [|lia|].
  - rewrite Z.shiftl_0_r. simpl in Hm. lia.
  - change (Z.shiftl (Zpos m) (Zneg q)) with (Z.shiftr (Zpos m) (Zpos q)).
    rewrite Z.shiftr_div_pow2 by lia. rewrite Hm.
    change (- Zneg q) with (Zpos q).
    apply Z.div_mul. apply Z.pow_nonzero; lia.
Qed.

(** *** Shifting a mantissa to the right *)

Lemma shr_1_shifted (M k : Z) (mrs : shr_record) :
  0 <= k -> shifted M k mrs -> shifted M (k + 1) (shr_1 mrs).
Proof.
  intros Hk (H0 & Hle & Hlt). destruct mrs as [m r s].
  cbn [shr_m shr_r shr_s] in *.
  assert (Hp : 0 < 2 ^ k) by (apply Z.pow_pos_nonneg; lia).
  assert (Hs : 2 ^ (k + 1) = 2 * 2 ^ k)
    by (rewrite Z.pow_add_r, Z.pow_1_r by lia; lia).
  unfold shifted. rewrite Hs. set (X := 2 ^ k) in *.
  destruct m as [|[p|p|]|p]; cbn [shr_1 shr_m shr_r shr_s].
  - split; [lia|]. split; [lia|]. intros H. apply Hlt. exact H.
  - rewrite Pos2Z.inj_xI in Hle.
    split; [lia|]. split; [lia|]. intros _. lia.
  - rewrite Pos2Z.inj_xO in Hle, Hlt.
    split; [lia|]. split; [lia|]. intros H.
    assert (H' : r || s = true) by exact H. specialize (Hlt H'). lia.
  - split; [lia|]. split; [lia|]. intros _. lia.
  - lia.
Qed.

Lemma iter_shr_1_shifted (M : Z) (p : positive) :
  forall (k : Z) (mrs : shr_record),
  0 <= k -> shifted M k mrs -> shifted M (k + Zpos p) (iter_pos shr_1 p mrs).
Proof.
  induction p as [p IH|p IH|]; intros k mrs Hk H; cbn [iter_pos].
  - replace (k + Zpos p~1) with (k + 1 + Zpos p + Zpos p) by lia.
    apply IH; [lia|]. apply IH; [lia|]. now apply shr_1_shifted.
  - replace (k + Zpos p~0) with (k + Zpos p + Zpos p) by lia.
    apply IH; [lia|]. now apply IH.
  - now apply shr_1_shifted.
Qed.

Lemma shr_fexp_exact (m e : Z) :
  0 <= m ->
  exists k,
    0 <= k
    /\ snd (shr_fexp F64.prec F64.emax m e loc_Exact) = e + k
    /\ (k = 0 \/ e + k = fexp F64.prec F64.emax (Zdigits2 m + e))
    /\ shifted m k (fst (shr_fexp F64.prec F64.emax m e loc_Exact)).
Proof.
  intros Hm. unfold shr_fexp, shr, shr_record_of_loc.
  assert (H0 : shifted m 0 {| shr_m := m; shr_r := false; shr_s := false |}).
  { unfold shifted; cbn [shr_m shr_r shr_s orb].
    split; [lia|]. split; [lia|]. intros H; discriminate H. }
  destruct (fexp F64.prec F64.emax (Zdigits2 m + e) - e) as [|p|p] eqn:Hn;
    cbn [fst snd].
  - exists 0. split; [lia|]. split; [lia|]. split; [now left|exact H0].
  - exists (Zpos p). split; [lia|]. split; [reflexivity|].
    split; [right; lia|].
    exact (iter_shr_1_shifted m p 0 _ (Z.le_refl 0) H0).
  - exists 0. split; [lia|]. split; [lia|]. split; [now left|exact H0].
Qed.

Lemma round_nearest_even_cases (mrs : shr_record) :
  round_nearest_even (shr_m mrs) (loc_of_shr_record mrs) = shr_m mrs
  \/ (round_nearest_even (shr_m mrs) (loc_of_shr_record mrs) = shr_m mrs + 1
      /\ shr_r mrs || shr_s mrs = true).
Proof.
  destruct mrs as [m [|] [|]]; simpl; auto.
  destruct (Z.even m); auto.
Qed.

Lemma Zdigits2_le (m n : Z) :
  0 <= m -> 0 <= n -> m < 2 ^ n -> Zdigits2 m <= n.
Proof.
  intros Hm Hn H. destruct m as [|p|p]; simpl; [lia| |lia].
  now apply digits2_pos_le.
Qed.

(** Rounding a positive number that does not exceed a number [T * 2^et] of
    the format gives zero or a float that does not exceed it either. *)
Lemma round_bounded (s : bool) (M : positive) (E T et : Z) :
  0 < T < 2 ^ 53 -> -1074 <= et <= 971 -> E <= et ->
  Zpos M <= T * 2 ^ (et - E) ->
  binary_round_aux F64.prec F64.emax s (Zpos M) E loc_Exact = S754_zero s
  \/ exists m e,
       binary_round_aux F64.prec F64.emax s (Zpos M) E loc_Exact
         = S754_finite s m e
       /\ e <= et /\ Zpos m <= T * 2 ^ (et - e).
Proof.
  intros HT Het HE HM. unfold binary_round_aux.
  destruct (shr_fexp_exact (Zpos M) E ltac:(lia)) as (k1 & Hk1 & He1 & Hf1 & Hs1).
  destruct (shr_fexp F64.prec F64.emax (Zpos M) E loc_Exact) as [mrs1 e1].
  cbn [fst snd] in *. subst e1.
  assert (Hpow : forall a b, 0 <= a -> 0 <= b -> 2 ^ (a + b) = 2 ^ a * 2 ^ b)
    by (intros; apply Z.pow_add_r; lia).
  assert (Hpos : forall a, 0 <= a -> 0 < 2 ^ a)
    by (intros; apply Z.pow_pos_nonneg; lia).
  (* the first exponent stays below et *)
  assert (He1 : E + k1 <= et).
  { destruct Hf1 as [->|Hf1]; [lia|]. rewrite Hf1.
    unfold fexp, emin, F64.prec, F64.emax. cbn [Zdigits2].
    assert (Zpos (digits2_pos M) <= 53 + (et - E)).
    { apply digits2_pos_le; [lia|]. rewrite Hpow by lia.
      pose proof (Hpos (et - E) ltac:(lia)). nia. }
    lia. }
  destruct Hs1 as (H10 & H1le & H1lt).
  set (m1 := round_nearest_even (shr_m mrs1) (loc_of_shr_record mrs1)).
  assert (Hm1 : 0 <= m1 <= T * 2 ^ (et - (E + k1))).
  { replace (et - E) with ((et - (E + k1)) + k1) in HM by lia.
    rewrite Hpow in HM by lia.
    pose proof (Hpos k1 Hk1) as Hp1.
    pose proof (Hpos (et - (E + k1)) ltac:(lia)) as Hp2.
    unfold m1. destruct (round_nearest_even_cases mrs1) as [->|[-> Hrs]].
    - split; [lia|]. nia.
    - specialize (H1lt Hrs). split; [lia|]. nia. }
  clearbody m1.
  destruct (shr_fexp_exact m1 (E + k1) ltac:(lia)) as (k2 & Hk2 & He2 & Hf2 & Hs2).
  destruct (shr_fexp F64.prec F64.emax m1 (E + k1) loc_Exact) as [mrs2 e2].
  cbn [fst snd] in *. subst e2.
  assert (He2 : E + k1 + k2 <= et).
  { destruct Hf2 as [->|Hf2]; [lia|]. rewrite Hf2.
    unfold fexp, emin, F64.prec, F64.emax.
    assert (Zdigits2 m1 <= 53 + (et - (E + k1))).
    { apply Zdigits2_le; [lia|lia|]. rewrite Hpow by lia.
      pose proof (Hpos (et - (E + k1)) ltac:(lia)). nia. }
    lia. }
  destruct Hs2 as (H20 & H2le & _).
  assert (Hm2 : shr_m mrs2 <= T * 2 ^ (et - (E + k1 + k2))).
  { destruct Hm1 as [_ Hm1].
    replace (et - (E + k1)) with ((et - (E + k1 + k2)) + k2) in Hm1 by lia.
    rewrite Hpow in Hm1 by lia.
    pose proof (Hpos k2 Hk2). pose proof (Hpos (et - (E + k1 + k2)) ltac:(lia)).
    nia. }
  destruct (shr_m mrs2) as [|m|m]; [now left| |lia].
  right. exists m, (E + k1 + k2).
  replace (E + k1 + k2 <=? F64.emax - F64.prec) with true
    by (symmetry; apply Z.leb_le; unfold F64.emax, F64.prec; lia).
  auto.
Qed.

Lemma of_Z_valid (z : Z) : 0 <= z < 2 ^ 53 -> well_formed (F64.of_Z z) = true.
Proof.
  intros [H0 H1]. destruct z as [|p|p]; [reflexivity| |lia].
  destruct (of_Z_pos p H1) as (m & e & -> & Hb & _). exact Hb.
Qed.

Lemma pow2_52 : 2 ^ 52 = 4503599627370496.
Proof. reflexivity. Qed.

(** A well-formed float that is at most 1 has a mantissa of at most
    [2^(-e)]. *)
Lemma leb_one_mantissa (m : positive) (e : Z) :
  bounded F64.prec F64.emax m e = true ->
  F64.leb (S754_finite false m e) F64.one = true ->
  e < 0 /\ Zpos m <= 2 ^ (- e).
Proof.
  intros Hb Hle. destruct (canonical_fexp m e Hb) as [Hc _].
  assert (Hd : Zpos (digits2_pos m) <= 53)
    by (unfold fexp, emin, F64.prec, F64.emax in Hc; lia).
  destruct (digits2_pos_bounds m) as [_ Hu].
  assert (Hm : Zpos m < 2 ^ 53).
  { eapply Z.lt_le_trans; [exact Hu|]. apply Z.pow_le_mono_r; lia. }
  rewrite one_eq in Hle. unfold F64.leb, SFleb, SFcompare in Hle.
  destruct (Z.compare_spec e (-52)) as [He|He|He].
  - subst e. split; [lia|].
    change (- -52) with 52. rewrite pow2_52.
    destruct (Pos.compare_cont Eq m 4503599627370496) eqn:Hcmp;
      try discriminate Hle.
    + apply Pos.compare_eq in Hcmp. subst m. apply Z.le_refl.
    + apply Z.lt_le_incl. exact Hcmp.
  - split; [lia|].
    apply Z.lt_le_incl. eapply Z.lt_le_trans; [exact Hm|].
    apply Z.pow_le_mono_r; lia.
  - discriminate Hle.
Qed.

(** X13: for a fraction between 0 and 1 (a float of the format) and fewer
    than 2^53 valid points, [int(fraction * tot)] is defined and lies
    between 0 and [tot]: the bootstrap does not fail before its loop and
    never draws more indices than there are valid points. *)
Theorem valid_fraction_subset_size (fraction : float) (tot : Z) :
  well_formed fraction = true ->
  F64.leb F64.zero fraction = true ->
  F64.leb fraction F64.one = true ->
  0 <= tot < 2 ^ 53 ->
  exists subset_size,
    subset_size_of fraction tot = Ok subset_size
    /\ 0 <= subset_size <= tot.
Proof.
  intros Hv H0 H1 [Ht0 Ht1]. unfold subset_size_of, F64.mul.
  destruct fraction as [s|s| |s mf ef]; try discriminate H0.
  - (* zero *)
    exists 0. split; [|lia].
    destruct tot as [|p|p]; [reflexivity| |lia].
    destruct (of_Z_pos p Ht1) as (m & e & -> & _). reflexivity.
  - (* infinity *)
    destruct s; discriminate.
  - destruct s; [discriminate H0|].
    destruct (leb_one_mantissa mf ef Hv H1) as [Hef Hmf].
    destruct tot as [|p|p]; [exists 0; split; [reflexivity|lia]| |lia].
    destruct (of_Z_pos p Ht1) as (mt & et & -> & Hb & Het & Hmt & Hval).
    cbn [SFmul xorb].
    assert (HM : Zpos (mf * mt) <= Zpos mt * 2 ^ (et - (ef + et))).
    { replace (et - (ef + et)) with (- ef) by lia.
      rewrite Pos2Z.inj_mul. rewrite (Z.mul_comm (Zpos mt)).
      apply Z.mul_le_mono_nonneg_r; lia. }
    destruct (round_bounded false (mf * mt) (ef + et) (Zpos mt) et
                ltac:(lia) ltac:(lia) ltac:(lia) HM)
      as [->|(m & e & -> & He & Hm)].
    + exists 0. split; [reflexivity|lia].
    + exists (Z.shiftl (Zpos m) e). split; [reflexivity|].
      assert (Hsh : Z.shiftl (Zpos m) e = Zpos m / 2 ^ (- e)).
      { destruct e as [|q|q]; [now rewrite Z.shiftl_0_r, Z.div_1_r|lia|].
        change (Z.shiftl (Zpos m) (Zneg q)) with (Z.shiftr (Zpos m) (Zpos q)).
        now rewrite Z.shiftr_div_pow2 by lia. }
      rewrite Hsh.
      assert (Hp : 0 < 2 ^ (- e)) by (apply Z.pow_pos_nonneg; lia).
      split; [apply Z.div_pos; lia|].
      apply Z.div_le_upper_bound; [exact Hp|].
      rewrite Hval in Hm.
      replace (Zpos p * 2 ^ (- et) * 2 ^ (et - e))
        with (Zpos p * 2 ^ (- e)) in Hm.
      * lia.
      * rewrite <- Z.mul_assoc, <- Z.pow_add_r by lia.
        f_equal. f_equal. lia.
Qed.

Lemma valid_fraction_subset_size_witness :
  well_formed default_fraction = true
  /\ F64.leb F64.zero default_fraction = true
  /\ F64.leb default_fraction F64.one = true
  /\ 0 <= 6 < 2 ^ 53
  /\ exists subset_size,
       subset_size_of default_fraction 6 = Ok subset_size
       /\ 0 <= subset_size <= 6.
Proof.
  assert (Ht : 0 <= 6 < 2 ^ 53) by (split; [lia|reflexivity]).
  split; [reflexivity|]. split; [reflexivity|]. split; [reflexivity|].
  split; [exact Ht|].
  exact (valid_fraction_subset_size default_fraction 6
           eq_refl eq_refl eq_refl Ht).
Defined.

(** X12: with [fraction = 1.0] the subset size is the number of valid
    points, for fewer than 2^53 of them: both the conversion of the count
    to a float and the product are exact. *)
Theorem full_fraction_subset_size (tot : Z) :
  0 <= tot < 2 ^ 53 -> subset_size_of F64.one tot = Ok tot.
Proof.
  intros Ht. unfold subset_size_of.
  rewrite mul_one_l by now apply of_Z_valid.
  now apply py_int_of_Z.
Qed.

Lemma full_fraction_subset_size_witness :
  0 <= 1000 < 2 ^ 53 /\ subset_size_of F64.one 1000 = Ok 1000.
Proof.
  assert (Ht : 0 <= 1000 < 2 ^ 53) by (split; [lia|reflexivity]).
  split; [exact Ht|]. exact (full_fraction_subset_size 1000 Ht).
Defined.

(** ** The model functions *)

(** X11: the fixed-slope model is the linear model at slope 1, bit for bit:
    on floats of the format, [_slope_one([b], x)] and
    [_lin_f([1.0, b], x)] return the same array, since multiplying by 1.0
    is exact. *)
Theorem slope_one_is_lin_f_at_one (b : float) (x : ndarray) :
  Forall (fun xi => well_formed xi = true) x ->
  _slope_one [b] x = _lin_f [F64.one; b] x.
Proof.
  intros Hx. unfold _slope_one, _lin_f. cbn [getitem nth_error bind].
  f_equal. apply map_ext_in. intros xi Hin.
  rewrite Forall_forall in Hx. now rewrite mul_one_l by (apply Hx; exact Hin).
Qed.

Lemma slope_one_is_lin_f_at_one_witness :
  Forall (fun xi => well_formed xi = true) [F64.of_Z 3; F64.nan; F64.ninf]
  /\ _slope_one [F64.of_Z 2] [F64.of_Z 3; F64.nan; F64.ninf]
     = _lin_f [F64.one; F64.of_Z 2] [F64.of_Z 3; F64.nan; F64.ninf].
Proof.
  assert (H : Forall (fun xi => well_formed xi = true)
                [F64.of_Z 3; F64.nan; F64.ninf])
    by (repeat constructor).
  split; [exact H|].
  exact (slope_one_is_lin_f_at_one (F64.of_Z 2) _ H).
Defined.

(** ** The sign of the subset size *)

(** X14: the sign of the subset size follows the sign of the fraction: when
    [int(fraction * tot)] is defined, it is not negative for a fraction
    that is not negative, and not positive for a fraction that is not
    positive.  Only a negative fraction hands a negative size to
    [np.random.choice]. *)
Theorem subset_size_sign (fraction : float) (tot subset_size : Z) :
  0 <= tot ->
  subset_size_of fraction tot = Ok subset_size ->
  (F64.leb F64.zero fraction = true -> 0 <= subset_size)
  /\ (F64.leb fraction F64.zero = true -> subset_size <= 0).
Proof.
  intros Ht. unfold subset_size_of, F64.mul.
  destruct (F64.of_Z tot) as [st|st| |st mt et] eqn:Et;
    destruct fraction as [s|s| |s mf ef]; cbn [SFmul py_int];
    try discriminate;
    try (intros H; inversion H; split; intros _; lia).
  assert (st = false) as -> by exact (of_Z_sign tot st mt et Ht Et).
  destruct (binary_round_aux _ _ _ _ _ _) as [s'|s'| |s' m e] eqn:Er;
    cbn [py_int]; try discriminate;
    try (intros H; inversion H; split; intros _; lia).
  apply binary_round_aux_sign in Er. subst s'.
  intros H; inversion H.
  pose proof (Z.shiftl_nonneg (Zpos m) e) as Hs.
  assert (0 <= Z.shiftl (Zpos m) e) by (apply Hs; lia).
  destruct s; cbn [xorb cond_Zopp]; split; intros Hl;
    try discriminate Hl; lia.
Qed.

Lemma subset_size_sign_witness :
  0 <= 3
  /\ subset_size_of (F64.of_Z 2) 3 = Ok 6
  /\ F64.leb F64.zero (F64.of_Z 2) = true
  /\ 0 <= 6.
Proof.
  assert (Ht : 0 <= 3) by lia.
  assert (Hk : subset_size_of (F64.of_Z 2) 3 = Ok 6) by reflexivity.
  split; [exact Ht|]. split; [exact Hk|]. split; [reflexivity|].
  exact (proj1 (subset_size_sign (F64.of_Z 2) 3 6 Ht Hk) eq_refl).
Defined.

(** ** Ordinary least squares and the warm start *)

(** X1: [fit_power_law] is [log_linregress] followed by the exponential of
    the intercept: on every input it returns the slope, r, p-value and
    standard error [log_linregress] returns, with the prefactor
    [exp(intercept)], and it raises exactly the error [log_linregress]
    raises. *)
Theorem fit_power_law_is_log_linregress (C : Collaborators) (xs ys : ndarray) :
  fit_power_law xs ys
  = (lr <- log_linregress xs ys ;;
     Ok (lr_slope lr, np_exp (lr_intercept lr), lr_rvalue lr, lr_pvalue lr,
         lr_stderr lr)).
Proof.
  unfold fit_power_law, log_linregress.
  destruct (nan_mask xs ys) as [mask|]; simpl; auto.
  destruct (np_bool_index xs mask) as [xs_|]; simpl; auto.
  destruct (np_bool_index ys mask) as [ys_|]; simpl; auto.
Qed.

(** X2: on inputs of equal lengths without infinite values the ODR fit is
    warm-started from [log_linregress] of the same input: the solver gets
    the rows [log_linregress] fits, its starting vector is that fit's
    slope and intercept (the intercept alone under [unit_exp]), the fit
    raises the error of [log_linregress] when that raises, and the r it
    returns is the r of [log_pearsonr]. *)
Theorem odr_starts_from_log_linregress (C : Collaborators) (xs ys : ndarray)
  (unit_exp : bool) :
  length xs = length ys ->
  (forall x, In x xs \/ In x ys -> F64.isinf x = false) ->
  let xs_ := xs_where both_not_nan xs ys in
  let ys_ := ys_where both_not_nan xs ys in
  fit_power_law_odr xs ys unit_exp
  = (linreg <- log_linregress xs ys ;;
     out <- odr_run (if unit_exp then _slope_one else _lin_f) xs_ ys_
              (if unit_exp then [lr_intercept linreg]
               else [lr_slope linreg; lr_intercept linreg]) ;;
     '(slope, intercept) <-
        (if unit_exp
         then b0 <- getitem (beta out) 0 ;; Ok (PyInt 1, b0)
         else '(b0, b1) <- unpack2 (beta out) ;; Ok (PyFloat b0, b1)) ;;
     '(r, _) <- log_pearsonr xs ys ;;
     Ok (slope, np_exp intercept, r)).
Proof.
  intros H Hinf xs_ ys_.
  rewrite fit_power_law_odr_masked by assumption. cbv zeta.
  rewrite log_linregress_eq, log_pearsonr_eq by assumption.
  unfold xs_, ys_, xs_where, ys_where.
  now rewrite (rows_where_no_infinity xs ys Hinf).
Qed.

Lemma odr_starts_from_log_linregress_witness :
  let C := Reference.collaborators in
  let xs := [F64.nan; F64.of_Z 2] in
  let ys := [F64.of_Z 1; F64.nan] in
  length xs = length ys
  /\ (forall x, In x xs \/ In x ys -> F64.isinf x = false)
  /\ log_linregress xs ys = Raise ValueError
  /\ fit_power_law_odr xs ys true = Raise ValueError.
Proof.
  intros C xs ys.
  assert (Hinf : forall x, In x xs \/ In x ys -> F64.isinf x = false).
  { intros x [[<-|[<-|[]]]|[<-|[<-|[]]]]; reflexivity. }
  assert (Hl : log_linregress xs ys = Raise ValueError) by reflexivity.
  split; [reflexivity|]. split; [exact Hinf|]. split; [exact Hl|].
  rewrite (odr_starts_from_log_linregress C xs ys true eq_refl Hinf).
  rewrite Hl. reflexivity.
Defined.

(** ** Sequences of different lengths *)

Lemma np_and_mismatch (a b : list bool) :
  length a <> length b -> broadcast_mask (length a) (length b) (np_and a b).
Proof.
  intros H. unfold np_and, broadcast_mask.
  destruct (Nat.eqb_spec (length a) (length b)) as [E|_]; [contradiction|].
  destruct a as [|x [|x' a']], b as [|y [|y' b']];
    try (exfalso; apply H; reflexivity); cbn [length].
  - right. eexists. split; [reflexivity|]. right. repeat split; auto.
  - left. repeat split; discriminate.
  - right. eexists. split; [reflexivity|]. left. split; reflexivity.
  - right. eexists. split; [reflexivity|]. left. split; [reflexivity|].
    now rewrite length_map.
  - left. repeat split; discriminate.
  - right. eexists. split; [reflexivity|]. right. repeat split;
      [discriminate|now rewrite length_map].
  - left. repeat split; discriminate.
Qed.

Lemma np_and_broadcast (n n' : nat) (c c' : result (list bool)) :
  n <> n' -> broadcast_mask n n' c -> broadcast_mask n n' c' ->
  broadcast_mask n n' (m <- c ;; m' <- c' ;; np_and m m').
Proof.
  intros Hn [(-> & H1 & H2)|(m & -> & Hm)]; [intros _; left; auto|].
  intros [(-> & H1 & H2)|(m' & -> & Hm')]; simpl.
  - exfalso. destruct Hm as [[E _]|[E _]]; contradiction.
  - right. exists (zip_with andb m m').
    assert (Hl : length m = length m') by (destruct Hm as [[? ?]|[? [? ?]]],
      Hm' as [[? ?]|[? [? ?]]]; congruence).
    rewrite np_and_same_length by exact Hl. split; [reflexivity|].
    rewrite zip_with_length by exact Hl. exact Hm.
Qed.

Lemma broadcast_mask_index {A : Type} (xs ys : ndarray)
  (c : result (list bool)) (k : list bool -> ndarray -> ndarray -> result A) :
  length xs <> length ys ->
  (2 <= length xs \/ 2 <= length ys)%nat ->
  broadcast_mask (length xs) (length ys) c ->
  (mask <- c ;;
   xs_ <- np_bool_index xs mask ;;
   ys_ <- np_bool_index ys mask ;;
   k mask xs_ ys_) = Raise (shape_error xs ys).
Proof.
  intros H H2 [(-> & H1 & H1')|(m & -> & Hm)]; unfold shape_error; simpl.
  - apply Nat.eqb_neq in H1, H1'. now rewrite H1, H1'.
  - unfold np_bool_index. destruct Hm as [[E1 E2]|[E1 [E2 E3]]].
    + rewrite E2, E1.
      destruct (Nat.eqb_spec 1 (length ys)) as [E|_]; [congruence|].
      destruct m as [|b m]; [simpl in E2; lia|reflexivity].
    + rewrite E3, Nat.eqb_refl; simpl. rewrite E1.
      destruct (Nat.eqb_spec 1 (length xs)) as [E|_]; [congruence|].
      apply Nat.eqb_neq in E2. rewrite E2.
      destruct m as [|b m]; [simpl in E3; lia|reflexivity].
Qed.

(** Two arrays of lengths 1 and 0, in either order. *)
Lemma lengths_one_zero (xs ys : ndarray) :
  length xs <> length ys -> (length xs <= 1 /\ length ys <= 1)%nat ->
  (exists x, xs = [x] /\ ys = []) \/ (exists y, xs = [] /\ ys = [y]).
Proof.
  intros H [H1 H2].
  destruct xs as [|x [|x' xs']], ys as [|y [|y' ys']]; simpl in *;
    try lia; try contradiction; eauto.
Qed.

Lemma nan_mask_broadcast (xs ys : ndarray) :
  length xs <> length ys ->
  broadcast_mask (length xs) (length ys) (nan_mask xs ys).
Proof.
  intros H. unfold nan_mask, np_invert, np_isnan.
  pose proof (np_and_mismatch (map negb (map F64.isnan xs))
                (map negb (map F64.isnan ys))) as Hm.
  rewrite !length_map in Hm. now apply Hm.
Qed.

Lemma finite_mask_broadcast (xs ys : ndarray) :
  length xs <> length ys ->
  broadcast_mask (length xs) (length ys) (finite_mask xs ys).
Proof.
  intros H. unfold finite_mask, np_isfinite.
  pose proof (np_and_mismatch (map F64.isfinite xs) (map F64.isfinite ys)) as Hm.
  rewrite !length_map in Hm. now apply Hm.
Qed.

Lemma odr_mask_broadcast (xs ys : ndarray) :
  length xs <> length ys ->
  broadcast_mask (length xs) (length ys) (odr_mask xs ys).
Proof.
  intros H. unfold odr_mask.
  apply np_and_broadcast;
    [exact H|now apply nan_mask_broadcast|now apply finite_mask_broadcast].
Qed.

(** X3: on two sequences of different lengths, one of them with two or
    more entries, [log_spearmanr], [log_pearsonr], [log_linregress],
    [fit_power_law] and [fit_power_law_odr] all raise before any statistic
    is computed: [IndexError] when the other length is 1 (the mask is
    broadcast and does not fit the shorter array), [ValueError] otherwise.
    Lengths 1 and 0 are no error: the broadcast mask is empty, it selects
    nothing from either sequence, and each function goes on as it does on
    two empty sequences. *)
Theorem length_mismatch_behaviour (C : Collaborators) (xs ys : ndarray) :
  length xs <> length ys ->
  ((2 <= length xs \/ 2 <= length ys)%nat ->
   log_spearmanr xs ys = Raise (shape_error xs ys)
   /\ log_pearsonr xs ys = Raise (shape_error xs ys)
   /\ log_linregress xs ys = Raise (shape_error xs ys)
   /\ fit_power_law xs ys = Raise (shape_error xs ys)
   /\ (forall unit_exp,
         fit_power_law_odr xs ys unit_exp = Raise (shape_error xs ys)))
  /\ ((length xs <= 1 /\ length ys <= 1)%nat ->
      log_spearmanr xs ys = spearmanr [] []
      /\ log_pearsonr xs ys = pearsonr [] []
      /\ log_linregress xs ys = linregress [] []
      /\ fit_power_law xs ys = fit_power_law [] []
      /\ (forall unit_exp,
            fit_power_law_odr xs ys unit_exp = fit_power_law_odr [] [] unit_exp)).
Proof.
  intros H. split.
  - intros H2. pose proof (nan_mask_broadcast xs ys H) as Hn.
    unfold log_spearmanr, log_pearsonr, log_linregress, fit_power_law.
    repeat split; try now apply broadcast_mask_index.
    intros unit_exp. unfold fit_power_law_odr.
    apply broadcast_mask_index; [exact H|exact H2|now apply odr_mask_broadcast].
  - intros H1.
    destruct (lengths_one_zero xs ys H H1) as [(x & -> & ->)|(y & -> & ->)];
      repeat split.
Qed.

Lemma length_mismatch_behaviour_witness :
  let C := Reference.collaborators in
  let xs := [F64.one; F64.one; F64.one] in
  length xs <> length [F64.one]
  /\ length xs <> length [F64.one; F64.zero]
  /\ fit_power_law_odr xs [F64.one] false = Raise IndexError
  /\ log_pearsonr xs [F64.one; F64.zero] = Raise ValueError
  /\ log_spearmanr [F64.one] [] = Ok (F64.nan, F64.nan)
  /\ log_linregress [] [F64.one] = Raise ValueError.
Proof.
  intros C xs.
  assert (H1 : length xs <> length [F64.one]) by discriminate.
  assert (H2 : length xs <> length [F64.one; F64.zero]) by discriminate.
  assert (H3 : length [F64.one] <> length (@nil float)) by discriminate.
  assert (H4 : length (@nil float) <> length [F64.one]) by discriminate.
  split; [exact H1|]. split; [exact H2|]. split; [|split; [|split]].
  - refine (proj2 (proj2 (proj2 (proj2
             (proj1 (length_mismatch_behaviour C xs [F64.one] H1) _)))) false).
    left. simpl. lia.
  - refine (proj1 (proj2
             (proj1 (length_mismatch_behaviour C xs [F64.one; F64.zero] H2) _))).
    left. simpl. lia.
  - refine (proj1 (proj2 (length_mismatch_behaviour C [F64.one] [] H3) _)).
    simpl. lia.
  - refine (proj1 (proj2 (proj2
             (proj2 (length_mismatch_behaviour C [] [F64.one] H4) _)))).
    simpl. lia.
Defined.

(** X4: on two sequences of different lengths, one of them with two or
    more entries, the bootstrap raises the same shape error before the
    subset size is computed, whatever the fraction and the number of
    rounds, and the random generator is left as it was.  On lengths 1 and
    0 it does what it does on two empty sequences. *)
Theorem bootstrap_length_mismatch_behaviour (C : Collaborators)
  (xs ys : ndarray) (fraction : float) (rounds : Z) (g : rng) :
  length xs <> length ys ->
  ((2 <= length xs \/ 2 <= length ys)%nat ->
   bootstrap_power_law_odr xs ys fraction rounds g
   = (Raise (shape_error xs ys), g))
  /\ ((length xs <= 1 /\ length ys <= 1)%nat ->
      bootstrap_power_law_odr xs ys fraction rounds g
      = bootstrap_power_law_odr [] [] fraction rounds g).
Proof.
  intros H. split.
  - intros H2. unfold bootstrap_power_law_odr.
    match goal with
    | |- match ?c with _ => _ end = _ =>
        assert (E : c = Raise (shape_error xs ys))
          by (apply broadcast_mask_index;
              [exact H|exact H2|now apply finite_mask_broadcast]);
        rewrite E
    end.
    reflexivity.
  - intros H1.
    destruct (lengths_one_zero xs ys H H1) as [(x & -> & ->)|(y & -> & ->)];
      reflexivity.
Qed.

Lemma bootstrap_length_mismatch_behaviour_witness :
  let C := Reference.collaborators in
  length [F64.one; F64.one] <> length [F64.one]
  /\ length [F64.one] <> length (@nil float)
  /\ bootstrap_power_law_odr [F64.one; F64.one] [F64.one] default_fraction
       default_rounds 42 = (Raise IndexError, 42)
  /\ bootstrap_power_law_odr [F64.one] [] default_fraction 0 42
     = (Ok ([], [], []), 42).
Proof.
  intros C.
  assert (H : length [F64.one; F64.one] <> length [F64.one]) by discriminate.
  assert (H' : length [F64.one] <> length (@nil float)) by discriminate.
  split; [exact H|]. split; [exact H'|]. split.
  - refine (proj1 (bootstrap_length_mismatch_behaviour C [F64.one; F64.one]
                     [F64.one] default_fraction default_rounds 42 H) _).
    left. simpl. lia.
  - refine (proj2 (bootstrap_length_mismatch_behaviour C [F64.one] []
                     default_fraction 0 42 H') _).
    simpl. lia.
Defined.

(** ** Invalid rows are invisible *)

Lemma fit_power_law_eq (C : Collaborators) (xs ys : ndarray) :
  length xs = length ys ->
  fit_power_law xs ys
  = (lr <- linregress (xs_where both_not_nan xs ys)
             (ys_where both_not_nan xs ys) ;;
     Ok (lr_slope lr, np_exp (lr_intercept lr), lr_rvalue lr, lr_pvalue lr,
         lr_stderr lr)).
Proof.
  intros H. unfold fit_power_law. rewrite nan_mask_eq by assumption; simpl.
  now rewrite bool_index_xs, bool_index_ys by assumption.
Qed.

(** X5: the three masking wrappers and [fit_power_law] see only the rows
    without NaN: two paired samples with the same such rows, in order,
    get the same result, so rows with a NaN can be inserted or removed
    anywhere. *)
Theorem ols_depends_on_nan_free_rows (C : Collaborators)
  (xs ys xs' ys' : ndarray) :
  length xs = length ys -> length xs' = length ys' ->
  rows_where both_not_nan xs ys = rows_where both_not_nan xs' ys' ->
  log_spearmanr xs ys = log_spearmanr xs' ys'
  /\ log_pearsonr xs ys = log_pearsonr xs' ys'
  /\ log_linregress xs ys = log_linregress xs' ys'
  /\ fit_power_law xs ys = fit_power_law xs' ys'.
Proof.
  intros H H' E.
  rewrite !log_spearmanr_eq, !log_pearsonr_eq, !log_linregress_eq,
    !fit_power_law_eq by assumption.
  unfold xs_where, ys_where. rewrite E. auto.
Qed.

Lemma ols_depends_on_nan_free_rows_witness :
  let C := Reference.collaborators in
  let xs := [F64.of_Z 1; F64.nan; F64.of_Z 2; F64.of_Z 4] in
  let ys := [F64.of_Z 3; F64.of_Z 5; F64.of_Z 5; F64.nan] in
  let xs' := [F64.nan; F64.of_Z 1; F64.of_Z 2] in
  let ys' := [F64.nan; F64.of_Z 3; F64.of_Z 5] in
  length xs = length ys /\ length xs' = length ys'
  /\ rows_where both_not_nan xs ys = rows_where both_not_nan xs' ys'
  /\ fit_power_law xs ys = fit_power_law xs' ys'.
Proof.
  intros C xs ys xs' ys'.
  split; [reflexivity|]. split; [reflexivity|]. split; [reflexivity|].
  exact (proj2 (proj2 (proj2
    (ols_depends_on_nan_free_rows C xs ys xs' ys' eq_refl eq_refl eq_refl)))).
Defined.

(** X6: the ODR fit sees only the rows whose two values are finite: two
    paired samples with the same such rows, in order, get the same
    result, so rows with a NaN or an infinite value can be inserted or
    removed anywhere. *)
Theorem odr_depends_on_finite_rows (C : Collaborators)
  (xs ys xs' ys' : ndarray) (unit_exp : bool) :
  length xs = length ys -> length xs' = length ys' ->
  rows_where both_finite xs ys = rows_where both_finite xs' ys' ->
  fit_power_law_odr xs ys unit_exp = fit_power_law_odr xs' ys' unit_exp.
Proof.
  intros H H' E.
  rewrite !fit_power_law_odr_masked by assumption. cbv zeta.
  unfold xs_where, ys_where. now rewrite E.
Qed.

Lemma odr_depends_on_finite_rows_witness :
  let C := Reference.collaborators in
  let xs := [F64.of_Z 1; F64.pinf; F64.of_Z 2; F64.of_Z 3] in
  let ys := [F64.of_Z 2; F64.of_Z 5; F64.of_Z 1; F64.of_Z 7] in
  let xs' := [F64.of_Z 1; F64.of_Z 2; F64.of_Z 3; F64.nan; F64.ninf] in
  let ys' := [F64.of_Z 2; F64.of_Z 1; F64.of_Z 7; F64.one; F64.one] in
  length xs = length ys /\ length xs' = length ys'
  /\ rows_where both_finite xs ys = rows_where both_finite xs' ys'
  /\ fit_power_law_odr xs ys false = fit_power_law_odr xs' ys' false.
Proof.
  intros C xs ys xs' ys'.
  split; [reflexivity|]. split; [reflexivity|]. split; [reflexivity|].
  exact (odr_depends_on_finite_rows C xs ys xs' ys' false
           eq_refl eq_refl eq_refl).
Defined.

(** X7: the bootstrap sees only the rows whose two values are finite: on
    two paired samples with the same such rows it returns the same
    sequences (or raises the same error) and leaves the generator in the
    same state. *)
Theorem bootstrap_depends_on_finite_rows (C : Collaborators)
  (xs ys xs' ys' : ndarray) (fraction : float) (rounds : Z) (g : rng) :
  length xs = length ys -> length xs' = length ys' ->
  rows_where both_finite xs ys = rows_where both_finite xs' ys' ->
  bootstrap_power_law_odr xs ys fraction rounds g
  = bootstrap_power_law_odr xs' ys' fraction rounds g.
Proof.
  intros H H' E.
  rewrite !bootstrap_power_law_odr_masked by assumption.
  unfold count_valid, xs_where, ys_where. now rewrite E.
Qed.

Lemma bootstrap_depends_on_finite_rows_witness :
  let C := Reference.collaborators in
  let xs := [F64.of_Z 1; F64.pinf; F64.of_Z 2; F64.of_Z 4] in
  let ys := [F64.of_Z 2; F64.of_Z 5; F64.of_Z 4; F64.of_Z 8] in
  let xs' := [F64.of_Z 1; F64.of_Z 2; F64.of_Z 4] in
  let ys' := [F64.of_Z 2; F64.of_Z 4; F64.of_Z 8] in
  length xs = length ys /\ length xs' = length ys'
  /\ rows_where both_finite xs ys = rows_where both_finite xs' ys'
  /\ bootstrap_power_law_odr xs ys default_fraction 3 42
     = bootstrap_power_law_odr xs' ys' default_fraction 3 42.
Proof.
  intros C xs ys xs' ys'.
  split; [reflexivity|]. split; [reflexivity|]. split; [reflexivity|].
  exact (bootstrap_depends_on_finite_rows C xs ys xs' ys' default_fraction 3 42
           eq_refl eq_refl eq_refl).
Defined.

(** ** Rounds in sequence *)

Section Rounds.

Context {C : Collaborators}.
Variables masked_xs masked_ys : ndarray.
Variables tot k : Z.

Lemma rounds_run_app (a b : nat) (g g1 g2 : rng)
  (fits1 fits2 : list (number * float * float)) :
  rounds_run masked_xs masked_ys tot k a g fits1 g1 ->
  rounds_run masked_xs masked_ys tot k b g1 fits2 g2 ->
  rounds_run masked_xs masked_ys tot k (a + b) g (fits1 ++ fits2) g2.
Proof.
  induction 1 as [g|n g idxs g1' xs_sub ys_sub fit fits g1 Hc Hx Hy Hf Hr IH];
    intros H2; simpl; [exact H2|].
  eapply rounds_step; eauto.
Qed.

Lemma rounds_run_split (a b : nat) :
  forall (g g2 : rng) (fits : list (number * float * float)),
  rounds_run masked_xs masked_ys tot k (a + b) g fits g2 ->
  exists fits1 fits2 g1,
    fits = fits1 ++ fits2
    /\ rounds_run masked_xs masked_ys tot k a g fits1 g1
    /\ rounds_run masked_xs masked_ys tot k b g1 fits2 g2.
Proof.
  induction a as [|a IH]; intros g g2 fits H; simpl in H.
  - exists [], fits, g. repeat split; [constructor|exact H].
  - inversion H as [|n g0 idxs g1' xs_sub ys_sub fit fits0 g20 Hc Hx Hy Hf Hr];
      subst.
    destruct (IH _ _ _ Hr) as (f1 & f2 & g1 & -> & H1 & H2).
    exists (fit :: f1), f2, g1. repeat split; [|exact H2].
    eapply rounds_step; eauto.
Qed.

(** The loop raises exactly when, after some rounds that returned, the
    next round raises; the rounds after it are not run. *)
Lemma bootstrap_loop_raise_iff (n : nat) :
  forall (es : list number) (ps rs : list float) (g g' : rng) (e : exn),
  bootstrap_loop n masked_xs masked_ys tot k es ps rs g = (Raise e, g') <->
  exists n' fits g1,
    (n' < n)%nat
    /\ rounds_run masked_xs masked_ys tot k n' g fits g1
    /\ bootstrap_round masked_xs masked_ys tot k g1 = (Raise e, g').
Proof.
  induction n as [|n IH]; intros es ps rs g g' e; simpl.
  - split; [discriminate|]. intros (n' & _ & _ & Hn & _). lia.
  - destruct (bootstrap_round masked_xs masked_ys tot k g)
      as [[[[ex pre] r]|e0] g1] eqn:Hround.
    + rewrite IH. pose proof Hround as Hok.
      apply bootstrap_round_ok in Hok.
      destruct Hok as (idxs & xs_sub & ys_sub & Hc & Hx & Hy & Hf).
      split.
      * intros (n' & fits & g2 & Hn & Hrun & Hr).
        exists (S n'), ((ex, pre, r) :: fits), g2.
        repeat split; [lia| |exact Hr]. eapply rounds_step; eauto.
      * intros (n' & fits & g2 & Hn & Hrun & Hr).
        destruct n' as [|n'].
        -- inversion Hrun; subst. rewrite Hround in Hr. discriminate Hr.
        -- inversion Hrun
             as [|n0 g0 idxs0 g10 xs0 ys0 fit0 fits0 g20 Hc0 Hx0 Hy0 Hf0 Hrest];
             subst.
           rewrite Hc in Hc0. inversion Hc0; subst idxs0 g10.
           exists n', fits0, g2. repeat split; [lia|exact Hrest|exact Hr].
    + split.
      * intros H; inversion H; subst.
        exists O, [], g. repeat split; [lia|constructor|exact Hround].
      * intros (n' & fits & g2 & Hn & Hrun & Hr).
        destruct n' as [|n'].
        -- inversion Hrun; subst. rewrite Hround in Hr. now inversion Hr.
        -- exfalso. inversion Hrun
             as [|n0 g0 idxs0 g10 xs0 ys0 fit0 fits0 g20 Hc0 Hx0 Hy0 Hf0 Hrest];
             subst.
           assert (Hok : bootstrap_round masked_xs masked_ys tot k g
                         = (Ok fit0, g10))
             by (apply bootstrap_round_ok; exists idxs0, xs0, ys0; auto).
           rewrite Hround in Hok. discriminate Hok.
Qed.

End Rounds.

Section Batches.

Context {C : Collaborators}.
Variables xs ys : ndarray.
Hypothesis same_length : length xs = length ys.
Variable fraction : float.

(** The bootstrap returns exactly when the subset size is defined and
    every round returns. *)
Lemma bootstrap_ok_iff (rounds : Z) (g g' : rng) (es ps rs : ndarray) :
  bootstrap_power_law_odr xs ys fraction rounds g = (Ok (es, ps, rs), g') <->
  exists subset_size fits,
    subset_size_of fraction (Z.of_nat (count_valid xs ys)) = Ok subset_size
    /\ rounds_run (xs_where both_finite xs ys) (ys_where both_finite xs ys)
         (Z.of_nat (count_valid xs ys)) subset_size (Z.to_nat rounds)
         g fits g'
    /\ es = map (fun t => to_float64 (fit_exponent t)) fits
    /\ ps = map fit_prefactor fits
    /\ rs = map fit_r fits.
Proof.
  rewrite bootstrap_power_law_odr_masked by assumption.
  destruct (subset_size_of fraction _) as [k|e] eqn:Hk.
  - destruct (bootstrap_loop _ _ _ _ _ _ _ _ g)
      as [[[[es0 ps0] rs0]|e0] g0] eqn:Hl.
    + apply bootstrap_loop_ok in Hl.
      destruct Hl as (fits & Hrun & He & Hp & Hrs).
      simpl in He, Hp, Hrs. subst es0 ps0 rs0. split.
      * intros Heq. inversion Heq; subst.
        exists k, fits. rewrite map_map. auto.
      * intros (k' & fits' & Hk' & Hrun' & -> & -> & ->).
        inversion Hk'; subst k'.
        assert (Hl' : bootstrap_loop (Z.to_nat rounds)
                        (xs_where both_finite xs ys)
                        (ys_where both_finite xs ys)
                        (Z.of_nat (count_valid xs ys)) k [] [] [] g
                      = (Ok (map fit_exponent fits', map fit_prefactor fits',
                             map fit_r fits'), g'))
          by (apply bootstrap_loop_ok; exists fits'; auto).
        assert (Hl0 : bootstrap_loop (Z.to_nat rounds)
                        (xs_where both_finite xs ys)
                        (ys_where both_finite xs ys)
                        (Z.of_nat (count_valid xs ys)) k [] [] [] g
                      = (Ok (map fit_exponent fits, map fit_prefactor fits,
                             map fit_r fits), g0))
          by (apply bootstrap_loop_ok; exists fits; auto).
        rewrite Hl0 in Hl'. inversion Hl' as [[He Hp Hrs Hg]].
        now rewrite He, map_map.
    + split; [discriminate|].
      intros (k' & fits' & Hk' & Hrun' & _). inversion Hk'; subst k'.
      assert (Hl' : bootstrap_loop (Z.to_nat rounds)
                      (xs_where both_finite xs ys)
                      (ys_where both_finite xs ys)
                      (Z.of_nat (count_valid xs ys)) k [] [] [] g
                    = (Ok (map fit_exponent fits', map fit_prefactor fits',
                           map fit_r fits'), g'))
        by (apply bootstrap_loop_ok; exists fits'; auto).
      rewrite Hl in Hl'. discriminate Hl'.
  - split; [discriminate|]. intros (k' & fits' & Hk' & _). discriminate Hk'.
Qed.

End Batches.

(** X8: rounds compose.  A bootstrap of [a + b] rounds returns exactly when
    a bootstrap of [a] rounds returns and a bootstrap of [b] rounds,
    started from the generator state the first one left, returns; its
    three sequences are then the concatenations of theirs and its final
    generator state is that of the second. *)
Theorem bootstrap_batches (C : Collaborators) (xs ys : ndarray)
  (fraction : float) (a b : Z) (g g2 : rng) (es ps rs : ndarray) :
  length xs = length ys -> 0 <= a -> 0 <= b ->
  (bootstrap_power_law_odr xs ys fraction (a + b) g = (Ok (es, ps, rs), g2) <->
   exists es1 ps1 rs1 g1 es2 ps2 rs2,
     bootstrap_power_law_odr xs ys fraction a g = (Ok (es1, ps1, rs1), g1)
     /\ bootstrap_power_law_odr xs ys fraction b g1 = (Ok (es2, ps2, rs2), g2)
     /\ es = es1 ++ es2 /\ ps = ps1 ++ ps2 /\ rs = rs1 ++ rs2).
Proof.
  intros H Ha Hb. split.
  - intros Hrun. apply bootstrap_ok_iff in Hrun; [|exact H].
    destruct Hrun as (k & fits & Hk & Hrun & -> & -> & ->).
    rewrite Z2Nat.inj_add in Hrun by assumption.
    apply rounds_run_split in Hrun.
    destruct Hrun as (f1 & f2 & g1 & -> & H1 & H2).
    exists (map (fun t => to_float64 (fit_exponent t)) f1),
      (map fit_prefactor f1), (map fit_r f1), g1,
      (map (fun t => to_float64 (fit_exponent t)) f2),
      (map fit_prefactor f2), (map fit_r f2).
    rewrite !map_app. repeat split.
    + apply bootstrap_ok_iff; [exact H|]. exists k, f1. auto.
    + apply bootstrap_ok_iff; [exact H|]. exists k, f2. auto.
  - intros (es1 & ps1 & rs1 & g1 & es2 & ps2 & rs2 & H1 & H2 & -> & -> & ->).
    apply bootstrap_ok_iff in H1; [|exact H].
    apply bootstrap_ok_iff in H2; [|exact H].
    destruct H1 as (k & f1 & Hk & Hr1 & -> & -> & ->).
    destruct H2 as (k' & f2 & Hk' & Hr2 & -> & -> & ->).
    rewrite Hk in Hk'. inversion Hk'; subst k'.
    apply bootstrap_ok_iff; [exact H|]. exists k, (f1 ++ f2).
    rewrite !map_app, Z2Nat.inj_add by assumption. repeat split; auto.
    now apply rounds_run_app with (g1 := g1).
Qed.

Lemma bootstrap_batches_witness :
  let C := Reference.collaborators in
  let xs := map F64.of_Z [1; 2; 4; 8; 16; 32] in
  let ys := map F64.of_Z [2; 4; 8; 16; 32; 64] in
  length xs = length ys /\ 0 <= 1 /\ 0 <= 2
  /\ exists es1 ps1 rs1 g1 es2 ps2 rs2,
       bootstrap_power_law_odr xs ys default_fraction 1 42
         = (Ok (es1, ps1, rs1), g1)
       /\ bootstrap_power_law_odr xs ys default_fraction 2 g1
         = (Ok (es2, ps2, rs2), 2561818183)
       /\ length (es1 ++ es2) = 3%nat.
Proof.
  intros C xs ys.
  assert (Ha : 0 <= 1) by lia. assert (Hb : 0 <= 2) by lia.
  split; [reflexivity|]. split; [exact Ha|]. split; [exact Hb|].
  assert (Hrun : exists es ps rs,
            bootstrap_power_law_odr xs ys default_fraction (1 + 2) 42
            = (Ok (es, ps, rs), 2561818183) /\ length es = 3%nat).
  { vm_compute. eexists. eexists. eexists. split; reflexivity. }
  destruct Hrun as (es & ps & rs & Hrun & Hlen).
  destruct (proj1 (bootstrap_batches C xs ys default_fraction 1 2 42 2561818183
                     es ps rs eq_refl Ha Hb) Hrun)
    as (es1 & ps1 & rs1 & g1 & es2 & ps2 & rs2 & H1 & H2 & He & _).
  exists es1, ps1, rs1, g1, es2, ps2, rs2.
  split; [exact H1|]. split; [exact H2|]. now rewrite <- He.
Defined.

(** X9: the bootstrap aborts at the first failing round.  When the subset
    size is defined, it raises [e] exactly when some number [n < rounds]
    of rounds returned and round [n + 1] raised [e]; the results of the
    rounds before are dropped, no later round is run, and the generator
    is left where the failing round left it. *)
Theorem bootstrap_aborts_at_first_failure (C : Collaborators) (xs ys : ndarray)
  (fraction : float) (rounds : Z) (g g' : rng) (e : exn) (subset_size : Z) :
  length xs = length ys ->
  let masked_xs := xs_where both_finite xs ys in
  let masked_ys := ys_where both_finite xs ys in
  let tot := Z.of_nat (count_valid xs ys) in
  subset_size_of fraction tot = Ok subset_size ->
  (bootstrap_power_law_odr xs ys fraction rounds g = (Raise e, g') <->
   exists n fits g1,
     Z.of_nat n < rounds
     /\ rounds_run masked_xs masked_ys tot subset_size n g fits g1
     /\ bootstrap_round masked_xs masked_ys tot subset_size g1 = (Raise e, g')).
Proof.
  intros H masked_xs masked_ys tot Hk.
  rewrite bootstrap_power_law_odr_masked by assumption.
  fold masked_xs masked_ys tot. rewrite Hk.
  destruct (bootstrap_loop _ _ _ _ _ _ _ _ g)
    as [[[[es ps] rs]|e0] g0] eqn:Hl.
  - split; [discriminate|].
    intros (n & fits & g1 & Hn & Hrun & Hr).
    assert (Hl' : bootstrap_loop (Z.to_nat rounds) masked_xs masked_ys tot
                    subset_size [] [] [] g = (Raise e, g'))
      by (apply bootstrap_loop_raise_iff; exists n, fits, g1;
          repeat split; [lia|exact Hrun|exact Hr]).
    rewrite Hl in Hl'. discriminate Hl'.
  - split.
    + intros Heq. inversion Heq; subst e0 g0.
      apply bootstrap_loop_raise_iff in Hl.
      destruct Hl as (n & fits & g1 & Hn & Hrun & Hr).
      exists n, fits, g1. repeat split; [lia|exact Hrun|exact Hr].
    + intros (n & fits & g1 & Hn & Hrun & Hr).
      assert (Hl' : bootstrap_loop (Z.to_nat rounds) masked_xs masked_ys tot
                      subset_size [] [] [] g = (Raise e, g'))
        by (apply bootstrap_loop_raise_iff; exists n, fits, g1;
            repeat split; [lia|exact Hrun|exact Hr]).
      rewrite Hl in Hl'. inversion Hl'. reflexivity.
Qed.

Lemma bootstrap_aborts_at_first_failure_witness :
  let C := Reference.collaborators in
  let xs := map F64.of_Z [1; 2; 4] in
  let ys := map F64.of_Z [2; 4; 8] in
  let fraction := SFopp (F64.of_Z 1) in
  length xs = length ys
  /\ subset_size_of fraction (Z.of_nat (count_valid xs ys)) = Ok (-3)
  /\ bootstrap_round (xs_where both_finite xs ys) (ys_where both_finite xs ys)
       (Z.of_nat (count_valid xs ys)) (-3) 42 = (Raise ValueError, 42)
  /\ bootstrap_power_law_odr xs ys fraction 5 42 = (Raise ValueError, 42).
Proof.
  intros C xs ys fraction.
  assert (Hk : subset_size_of fraction (Z.of_nat (count_valid xs ys)) = Ok (-3))
    by reflexivity.
  assert (Hr : bootstrap_round (xs_where both_finite xs ys)
                 (ys_where both_finite xs ys)
                 (Z.of_nat (count_valid xs ys)) (-3) 42 = (Raise ValueError, 42))
    by reflexivity.
  split; [reflexivity|]. split; [exact Hk|]. split; [exact Hr|].
  apply (proj2 (bootstrap_aborts_at_first_failure C xs ys fraction 5 42 42
                  ValueError (-3) eq_refl Hk)).
  exists O, [], 42. split; [lia|]. split; [constructor|exact Hr].
Defined.

(** ** Gathering the subsample *)

Lemma np_take_rows {A B : Type} (rows : list (A * B)) (idxs : list nat) :
  Forall (fun i => (i < length rows)%nat) idxs ->
  exists sub,
    np_take (map fst rows) idxs = Ok (map fst sub)
    /\ np_take (map snd rows) idxs = Ok (map snd sub)
    /\ length sub = length idxs
    /\ Forall (fun r => In r rows) sub.
Proof.
  induction 1 as [|i idxs Hi _ IH]; simpl.
  - exists []. repeat split; constructor.
  - destruct IH as (sub & Hx & Hy & Hl & Hin).
    destruct (nth_error rows i) as [r|] eqn:Hr;
      [|apply nth_error_None in Hr; lia].
    exists (r :: sub). unfold getitem. rewrite !nth_error_map, Hr; simpl.
    rewrite Hx, Hy; simpl. repeat split; [now f_equal|].
    constructor; [now apply nth_error_In with i|exact Hin].
Qed.

Lemma np_take_out_of_range {A : Type} (a : list A) (idxs : list nat) :
  Exists (fun i => (length a <= i)%nat) idxs ->
  np_take a idxs = Raise IndexError.
Proof.
  induction idxs as [|i idxs IH]; intros H; inversion H; subst; simpl.
  - unfold getitem. now rewrite (proj2 (nth_error_None a i)).
  - unfold getitem. destruct (nth_error a i); simpl; [|reflexivity].
    now rewrite IH.
Qed.

(** X10: resampling keeps x and y paired and never reaches an invalid
    value.  When the draw of a round returns indices below the number of
    valid rows, the round fits the logarithms of as many pairs as indices,
    each pair a row of the input with both values finite; when an index
    is out of that range the round raises [IndexError]. *)
Theorem round_fits_valid_rows (C : Collaborators) (xs ys : ndarray)
  (subset_size : Z) (g g' : rng) (idxs : list nat) :
  let masked_xs := xs_where both_finite xs ys in
  let masked_ys := ys_where both_finite xs ys in
  let tot := Z.of_nat (count_valid xs ys) in
  np_random_choice tot subset_size g = (Ok idxs, g') ->
  (Forall (fun i => (i < count_valid xs ys)%nat) idxs ->
   exists sub,
     length sub = length idxs
     /\ Forall (fun r => In r (combine xs ys)
                         /\ F64.isfinite (fst r) = true
                         /\ F64.isfinite (snd r) = true) sub
     /\ bootstrap_round masked_xs masked_ys tot subset_size g
        = (fit_power_law_odr (map np_log (map fst sub))
             (map np_log (map snd sub)) false, g'))
  /\ (Exists (fun i => (count_valid xs ys <= i)%nat) idxs ->
      bootstrap_round masked_xs masked_ys tot subset_size g
      = (Raise IndexError, g')).
Proof.
  intros masked_xs masked_ys tot Hc. unfold bootstrap_round. rewrite Hc.
  split.
  - intros Hin.
    destruct (np_take_rows (rows_where both_finite xs ys) idxs Hin)
      as (sub & Hx & Hy & Hl & Hs).
    exists sub. split; [exact Hl|]. split.
    + eapply Forall_impl; [|exact Hs]. intros [x y] Hr.
      apply filter_In in Hr. destruct Hr as [Hr Hf]. simpl in *.
      apply andb_true_iff in Hf. tauto.
    + unfold masked_xs, masked_ys, xs_where, ys_where.
      rewrite Hx; simpl. now rewrite Hy.
  - intros Hex. unfold masked_xs, xs_where.
    rewrite np_take_out_of_range; [reflexivity|].
    now rewrite length_map.
Qed.

Lemma round_fits_valid_rows_witness :
  let C := Reference.collaborators in
  let xs := [F64.of_Z 1; F64.nan; F64.of_Z 2; F64.of_Z 4] in
  let ys := [F64.of_Z 2; F64.of_Z 3; F64.of_Z 4; F64.of_Z 8] in
  np_random_choice 3 2 42 = (Ok [1%nat; 0%nat], 378494188)
  /\ Forall (fun i => (i < count_valid xs ys)%nat) [1%nat; 0%nat]
  /\ exists sub,
       length sub = 2%nat
       /\ bootstrap_round (xs_where both_finite xs ys)
            (ys_where both_finite xs ys) 3 2 42
          = (fit_power_law_odr (map np_log (map fst sub))
               (map np_log (map snd sub)) false, 378494188).
Proof.
  intros C xs ys.
  assert (Hc : np_random_choice (Z.of_nat (count_valid xs ys)) 2 42
               = (Ok [1%nat; 0%nat], 378494188)) by (vm_compute; reflexivity).
  assert (Hin : Forall (fun i => (i < count_valid xs ys)%nat) [1%nat; 0%nat])
    by (repeat constructor).
  split; [exact Hc|]. split; [exact Hin|].
  destruct (proj1 (round_fits_valid_rows C xs ys 2 42 378494188 _ Hc) Hin)
    as (sub & Hl & _ & Hr).
  exists sub. split; [exact Hl|exact Hr].
Defined.


(** ** The geometric mean of a series *)

Lemma select_notnull (a : series) :
  select a (series_notnull a) = filter (fun x => negb (F64.isnan x)) a.
Proof.
  unfold series_notnull. induction a as [|x a IH]; simpl; auto.
  destruct (negb (F64.isnan x)); now rewrite IH.
Qed.

Lemma series_any_counts (a : series) : series_any a = existsb counts a.
Proof.
  unfold series_any. rewrite select_notnull.
  induction a as [|x a IH]; simpl; auto.
  unfold counts at 1. destruct (negb (F64.isnan x)); simpl; now rewrite IH.
Qed.

(** X15: [nan_gmean] returns NaN without calling [gmean] when every value
    of the series is missing or zero (in particular on an empty series);
    otherwise it returns [gmean] of the values that are not missing, and
    that array is not empty, holds no NaN and holds a value that is not
    zero. *)
Theorem nan_gmean_cases (gmean : ndarray -> result float) (a : series) :
  let present := filter (fun x => negb (F64.isnan x)) a in
  (nan_gmean gmean a = Ok F64.nan
   /\ forall x, In x a -> F64.isnan x = true \/ truthy x = false)
  \/ (nan_gmean gmean a = gmean present
      /\ present <> []
      /\ (forall x, In x present -> F64.isnan x = false)
      /\ exists x, In x present /\ truthy x = true).
Proof.
  intros present. unfold nan_gmean. rewrite series_any_counts, select_notnull.
  fold present. destruct (existsb counts a) eqn:E; simpl.
  - right. apply existsb_exists in E. destruct E as (x & Hin & Hc).
    unfold counts in Hc. apply andb_true_iff in Hc. destruct Hc as [Hn Ht].
    assert (Hp : In x present) by (apply filter_In; auto).
    repeat split.
    + intros Hnil. rewrite Hnil in Hp. exact Hp.
    + intros y Hy. apply filter_In in Hy.
      now destruct Hy as [_ Hy], (F64.isnan y).
    + now exists x.
  - left. split; [reflexivity|]. intros x Hin.
    destruct (F64.isnan x) eqn:Hn; [now left|right].
    destruct (truthy x) eqn:Ht; [|reflexivity].
    assert (existsb counts a = true)
      by (apply existsb_exists; exists x; unfold counts; now rewrite Hn, Ht).
    congruence.
Qed.

(** X16: [nan_gmean] depends only on the values that are not missing: two
    series with the same such values, in order, get the same result. *)
Theorem nan_gmean_skips_nan (gmean : ndarray -> result float) (a b : series) :
  filter (fun x => negb (F64.isnan x)) a
  = filter (fun x => negb (F64.isnan x)) b ->
  nan_gmean gmean a = nan_gmean gmean b.
Proof.
  intros H. unfold nan_gmean. unfold series_any. rewrite !select_notnull.
  now rewrite H.
Qed.

Lemma nan_gmean_skips_nan_witness :
  let a := [F64.of_Z 2; F64.nan; F64.of_Z 8] in
  let b := [F64.nan; F64.of_Z 2; F64.of_Z 8; F64.nan] in
  filter (fun x => negb (F64.isnan x)) a = filter (fun x => negb (F64.isnan x)) b
  /\ nan_gmean ReferenceUtils.gmean a = nan_gmean ReferenceUtils.gmean b.
Proof.
  intros a b. split; [reflexivity|].
  exact (nan_gmean_skips_nan ReferenceUtils.gmean a b eq_refl).
Defined.
